(** * graphics.hh: packed colours, vector arithmetic and the canvas

    A shallow embedding of [src/graphics.hh] (namespace [graphics]).

    Conventions of the embedding.
    - [unsigned] and [uint32_t] are 32 bits, [std::size_t] is 64 bits (LP64).
      Machine integers are values of [Z]; every wrap-around of the source is
      written out with [u32] (and [u8] for a conversion to [uint8_t]).
    - The storage of a canvas is a [list] of pixels.  A canvas that owns a
      [std::array] and a canvas that borrows through a [std::span] are both a
      window into that list, so that a view and its parent write to the same
      cells.
    - Pointer and index arithmetic is plain address arithmetic.  Reading or
      writing an element that lies outside the storage is undefined behaviour
      in C++; the embedding stops there with [Fault]/[None].
    - The loops of the source run on fuel where their trip count is not
      structurally evident; running out of fuel is a result of its own
      ([OutOfFuel]), distinct from a fault. *)

From Stdlib Require Import ZArith Lia String Ascii.
From stdpp Require Import base tactics option list.

Local Open Scope Z_scope.

(** ** Machine integers *)

Definition u8 (z : Z) : Z := z mod 2 ^ 8.
Definition u32 (z : Z) : Z := z mod 2 ^ 32.

(** The values of [uint8_t] and of [unsigned]. *)
Definition is_byte (z : Z) : Prop := 0 <= z < 2 ^ 8.
Definition is_unsigned (z : Z) : Prop := 0 <= z < 2 ^ 32.

(** [~std::size_t{}] *)
Definition size_max : Z := 2 ^ 64 - 1.

(** ** Packed colours *)

(** [return r | (g << 8) | (b << (2 * 8)) | 0xff'00'00'00;]
    The operands are promoted to [int]; no shift leaves its 31 value bits, and
    the last operand makes the expression [unsigned]. *)
Definition encode_rgb (r g b : Z) : Z :=
  u32 (Z.lor (Z.lor (Z.lor r (Z.shiftl g 8)) (Z.shiftl b (2 * 8))) 0xff000000).

(** [return { (color & 0x000000FF) >> (8*0), (color & 0x0000FF00) >> (8*1),
              (color & 0x00FF0000) >> (8*2) };]
    each component converted to [uint8_t]. *)
Definition decode_rgb (color : Z) : Z * Z * Z :=
  (u8 (Z.shiftr (Z.land color 0x000000FF) (8 * 0)),
   u8 (Z.shiftr (Z.land color 0x0000FF00) (8 * 1)),
   u8 (Z.shiftr (Z.land color 0x00FF0000) (8 * 2))).

(** The packing the interface documents: R | (G<<8) | (B<<16) | (0xFF<<24). *)
Definition packed (r g b : Z) : Z :=
  Z.lor (Z.lor (Z.lor r (Z.shiftl g 8)) (Z.shiftl b 16)) (Z.shiftl 0xFF 24).

Module colors.
Definition red : Z := encode_rgb 255 0 0.
Definition green : Z := encode_rgb 0 255 0.
Definition blue : Z := encode_rgb 0 0 255.
Module gruvbox.
Definition bg : Z := 0xff282828.
Definition fg : Z := 0xffb2dbeb.
End gruvbox.
End colors.

(** ** Output streams

    A stream is the sequence of characters written to it so far. *)

Definition ostream : Type := string.

Definition nl : string := String (ascii_of_nat 10) EmptyString.

(** [os << text] *)
Definition write (os : ostream) (text : string) : ostream := String.append os text.

(** [os.put(c)] for a [uint8_t] converted to [char]. *)
Definition put (os : ostream) (c : Z) : ostream :=
  write os (String (ascii_of_N (Z.to_N (u8 c))) EmptyString).

Definition digit (d : Z) : ascii := ascii_of_N (Z.to_N (48 + d)).

(** The decimal digits of [n], most significant first; an [unsigned] has at
    most ten of them. *)
Fixpoint decimal (fuel : nat) (n : Z) (acc : string) : string :=
  match fuel with
  | O => acc
  | S fuel' =>
      let acc' := String (digit (n mod 10)) acc in
      if n / 10 =? 0 then acc' else decimal fuel' (n / 10) acc'
  end.

(** [os << n] for [unsigned n] *)
Definition print_unsigned (n : Z) : string := decimal 10 n EmptyString.

(** ** Vector arithmetic (namespace [math]) *)

Module math.

(** An operand is a [vector] (a type with [std::get] and [std::tuple_size];
    its elements in order) or a [scalar]. *)
Inductive operand (T : Type) : Type :=
| vector_of (elems : list T)
| scalar_of (s : T).
Arguments vector_of {T} elems.
Arguments scalar_of {T} s.

Definition is_vector {T} (o : operand T) : bool :=
  match o with vector_of _ => true | scalar_of _ => false end.

(** [std::conditional_t<vector<T>, std::tuple_size<T>,
      std::integral_constant<std::size_t, (~std::size_t{})>>::value] *)
Definition tuple_size {T} (o : operand T) : Z :=
  match o with
  | vector_of elems => Z.of_nat (length elems)
  | scalar_of _ => size_max
  end.

(** [constexpr unsigned vector_min_size = std::min({ ... });]
    the minimum is taken in [std::size_t] and stored in an [unsigned]. *)
Definition vector_min_size {L R} (lhs : operand L) (rhs : operand R) : Z :=
  u32 (Z.min (tuple_size lhs) (tuple_size rhs)).

(** [std::make_index_sequence<N>] *)
Definition index_sequence (N : Z) : list nat := seq 0 (Z.to_nat N).

(** [std::array { e... }]: the element type is deduced from the first
    element, so an empty pack has no array type and the call is rejected. *)
Definition std_array {T} (elems : option (list T)) : option (list T) :=
  match elems with
  | Some (e :: es) => Some (e :: es)
  | _ => None
  end.

Inductive binary_operator : Type := plus | minus | multiplies | divides.

Section Reduce.
Context {L R T : Type}.

(** [binary_operator{}(a, b)]: the built-in operator of the element
    types, with its result type. *)
Variable call : binary_operator -> L -> R -> T.

(** [reduce<binary_operator>(lhs, rhs)], [None] where the call is not
    well-formed (two scalars fail the requires-clause). *)
Definition reduce (op : binary_operator)
    (lhs : operand L) (rhs : operand R) : option (list T) :=
  let N := vector_min_size lhs rhs in
  match lhs, rhs with
  | vector_of l, scalar_of s =>
      std_array (mapM (fun I => a ← l !! I; Some (call op a s)) (index_sequence N))
  | scalar_of s, vector_of r =>
      std_array (mapM (fun I => b ← r !! I; Some (call op s b)) (index_sequence N))
  | vector_of l, vector_of r =>
      std_array (mapM (fun I => a ← l !! I; b ← r !! I; Some (call op a b))
                      (index_sequence N))
  | scalar_of _, scalar_of _ => None
  end.

(** namespace [operators] *)
Definition operator_plus := reduce plus.
Definition operator_minus := reduce minus.
Definition operator_multiplies := reduce multiplies.
Definition operator_divides := reduce divides.

(** The operator template that an operator symbol selects. *)
Definition apply_operator (op : binary_operator) :=
  match op with
  | plus => operator_plus
  | minus => operator_minus
  | multiplies => operator_multiplies
  | divides => operator_divides
  end.
End Reduce.

(** The built-in operators on [unsigned] operands.  Division by zero is
    undefined in C++; nothing below evaluates [divides] there. *)
Definition unsigned_call (op : binary_operator) (a b : Z) : Z :=
  match op with
  | plus => u32 (a + b)
  | minus => u32 (a - b)
  | multiplies => u32 (a * b)
  | divides => u32 (a / b)
  end.

Section Print.
Context {T : Type}.

(** [os << x] for an element. *)
Variable show : T -> string.

(** The fold [((void)(os << (I > 0 ? ", " : "(") << std::get<I>(vec)), ...)],
    from index [I] on. *)
Fixpoint stream_elements (os : ostream) (I : nat) (vec : list T) : ostream :=
  match vec with
  | [] => os
  | x :: rest =>
      stream_elements
        (write (write os (if (0 <? I)%nat then ", " else "(")) (show x))
        (S I) rest
  end.

(** [operator<<(std::ostream&, Vector const&)] *)
Definition operator_shl (os : ostream) (vec : list T) : ostream :=
  write (stream_elements os 0 vec) ")".

(** The textual representation as the specification words it: a leading
    parenthesis, the elements separated by comma and space, a trailing
    parenthesis. *)
Definition spec_format (vec : list T) : string :=
  String.append "(" (String.append (String.concat ", " (map show vec)) ")").
End Print.

(** The broadcasting rule as the specification words it: the element of an
    operand at position [i], a scalar standing for itself everywhere. *)
Definition element_i {T} (o : operand T) (i : nat) : option T :=
  match o with
  | vector_of elems => elems !! i
  | scalar_of s => Some s
  end.

(** The value the broadcasting rule asks for at position [I]:
    [op(element_i(lhs), element_i(rhs))]. *)
Definition expansion {L R T} (call : binary_operator -> L -> R -> T)
    (op : binary_operator) (lhs : operand L) (rhs : operand R) (I : nat)
    : option T :=
  x ← element_i lhs I; y ← element_i rhs I; Some (call op x y).

(** The arity of a vector operand; a scalar has none. *)
Definition arity {T} (o : operand T) : option nat :=
  match o with
  | vector_of elems => Some (length elems)
  | scalar_of _ => None
  end.

(** The minimum arity among the vector operands, as the specification
    words it: a scalar does not constrain it. *)
Definition spec_min_arity {L R} (lhs : operand L) (rhs : operand R) : option nat :=
  match arity lhs, arity rhs with
  | Some n, Some m => Some (Nat.min n m)
  | Some n, None => Some n
  | None, Some m => Some m
  | None, None => None
  end.

(** The first [n] elements of a vector operand. *)
Definition first_n {T} (n : nat) (o : operand T) : operand T :=
  match o with
  | vector_of elems => vector_of (take n elems)
  | scalar_of s => scalar_of s
  end.

End math.

(** ** Storage, pointers and spans *)

(** A pointer to an element of the storage, by index, or the null pointer. *)
Inductive pointer : Type :=
| nullptr
| element (i : Z).

(** [p + n] *)
Definition ptr_add (p : pointer) (n : Z) : pointer :=
  match p with
  | nullptr => nullptr
  | element i => element (i + n)
  end.

(** [last - first] *)
Definition ptr_diff (last first : pointer) : Z :=
  match last, first with
  | element j, element i => j - i
  | _, _ => 0
  end.

(** The data of a canvas: where its element 0 lives and how many elements it
    spans ([std::span]; an owned [std::array] is the span of all of it). *)
Record span : Type := { begin_ : pointer; size_ : Z }.

(** [std::span{}] *)
Definition span_default : span := {| begin_ := nullptr; size_ := 0 |}.

(** [std::span{first, last}] *)
Definition span_range (first last : pointer) : span :=
  {| begin_ := first; size_ := ptr_diff last first |}.

(** [&data[i]]: neither [std::array] nor [std::span] checks the index. *)
Definition subscript (data : span) (i : Z) : pointer := ptr_add (begin_ data) i.

(** The three ways a loop of the embedding ends. *)
Inductive outcome (S : Type) : Type :=
| Done (s : S)
| Fault
| OutOfFuel.
Arguments Done {S} s.
Arguments Fault {S}.
Arguments OutOfFuel {S}.

Section Storage.
Context {A : Type}.

(** [*p] as an rvalue. *)
Definition load (st : list A) (p : pointer) : option A :=
  match p with
  | nullptr => None
  | element i => if bool_decide (0 <= i) then st !! Z.to_nat i else None
  end.

(** [*p = v] *)
Definition store (st : list A) (p : pointer) (v : A) : option (list A) :=
  match p with
  | nullptr => None
  | element i =>
      if bool_decide (0 <= i < Z.of_nat (length st))
      then Some (<[Z.to_nat i := v]> st)
      else None
  end.

(** [std::fill(first, first + count, v)]:
    [for (; first != last; ++first) *first = v;] *)
Fixpoint std_fill (st : list A) (first : pointer) (count : nat) (v : A)
    : option (list A) :=
  match count with
  | O => Some st
  | S count' =>
      match store st first v with
      | Some st' => std_fill st' (ptr_add first 1) count' v
      | None => None
      end
  end.
End Storage.

(** ** The canvas *)

Record canvas : Type :=
  { data : span; width : Z; height : Z; stride : Z }.

(** [canvas<std::span<value_type>>{}]: an empty span, [width] and [height]
    value-initialised, [stride = width]. *)
Definition canvas_default : canvas :=
  {| data := span_default; width := 0; height := 0; stride := 0 |}.

Section Canvas.
Context {A : Type}.

(** The row loop of [fill], from the loop state [(cursor, h)]:
    [for (auto cursor = 0u, h = height; --h < height; cursor += stride)
       std::fill(&data[cursor], &data[cursor] + width, new_value);]
    [rows] counts the executions of the body. *)
Fixpoint fill_rows (fuel : nat) (c : canvas) (new_value : A)
    (cursor h : Z) (st : list A) (rows : nat) : outcome (list A * nat) :=
  match fuel with
  | O => OutOfFuel
  | S fuel' =>
      let h' := u32 (h - 1) in
      if h' <? height c then
        match std_fill st (subscript (data c) cursor) (Z.to_nat (width c)) new_value with
        | Some st' =>
            fill_rows fuel' c new_value (u32 (cursor + stride c)) h' st' (S rows)
        | None => Fault
        end
      else Done (st, rows)
  end.

(** [canvas::fill]: the storage afterwards and the number of rows written. *)
Definition fill (fuel : nat) (c : canvas) (new_value : A) (st : list A)
    : outcome (list A * nat) :=
  fill_rows fuel c new_value 0 (height c) st 0.

(** [canvas::save_as_ppm(filename, rgb)]: the bytes written to the file. *)
Definition save_as_ppm (c : canvas) (rgb : A -> Z * Z * Z) (st : list A)
    : option ostream :=
  let out :=
    write (write (write (write (write EmptyString
      ("P6" ++ nl)) (print_unsigned (width c))) " ")
      (print_unsigned (height c))) (nl ++ "255" ++ nl) in
  foldl (fun out y =>
    foldl (fun out x =>
      os ← out;
      px ← load st (subscript (data c) (u32 (u32 (y * stride c) + x)));
      let '(r, g, b) := rgb px in
      Some (put (put (put os r) g) b))
    out (seqZ 0 (width c)))
  (Some out) (seqZ 0 (height c)).
End Canvas.

Section Subcanvas.
Context {Point : Type}.

(** The coordinate extractor; it yields a pair of [unsigned]. *)
Variable getxy : Point -> Z * Z.

(** [canvas::subcanvas_view(p1, p2, getxy)] *)
Definition subcanvas_view (c : canvas) (p1 p2 : Point) : canvas :=
  let '(x1, y1) := getxy p1 in
  let '(x2, y2) := getxy p2 in
  if (x1 =? x2) && (y1 =? y2) then canvas_default else
  let '(x1, x2) := if x1 >? x2 then (x2, x1) else (x1, x2) in
  let '(y1, y2) := if y1 >? y2 then (y2, y1) else (y1, y2) in
  {| data :=
       span_range (subscript (data c) (u32 (u32 (y1 * stride c) + x1)))
                  (ptr_add (subscript (data c) 0) (u32 (height c * stride c)));
     width := u32 (u32 (x2 - x1) + 1);
     height := u32 (u32 (y2 - y1) + 1);
     stride := stride c |}.
End Subcanvas.

(** [identity]: the default extractor, for points that are pairs already. *)
Definition identity {T} (value : T) : T := value.

(** *** Well-formed canvases

    The geometry fields are [unsigned]; the canvas lies inside the storage
    ([stride * (height - 1) + width] elements from its element 0), rows do
    not overlap ([width <= stride]), and its extent [height * stride], which
    the source computes in [unsigned], is representable. *)
Definition canvas_at (c : canvas) (base : Z) : Prop :=
  begin_ (data c) = element base /\ 0 <= base.

Definition geometry_ok (c : canvas) : Prop :=
  is_unsigned (width c) /\ is_unsigned (height c) /\ is_unsigned (stride c) /\
  width c <= stride c /\ height c * stride c < 2 ^ 32.

Definition inside {A} (c : canvas) (base : Z) (st : list A) : Prop :=
  0 < height c -> base + (height c - 1) * stride c + width c <= Z.of_nat (length st).

(** The value of [cursor] when the row loop of [fill] reaches row [y]. *)
Definition row_start (c : canvas) (y : Z) : Z := u32 (y * stride c).

(** Every row that [fill] writes lies in the storage. *)
Definition rows_inside {A} (c : canvas) (base : Z) (st : list A) : Prop :=
  forall y, 0 <= y < height c ->
    base + row_start c y + width c <= Z.of_nat (length st).

(** Storage index [j] belongs to row [y] of the canvas. *)
Definition in_row (c : canvas) (base y : Z) (j : nat) : Prop :=
  base + row_start c y <= Z.of_nat j < base + row_start c y + width c.

(** *** The parts of a saved file

    The loops of [save_as_ppm] by name, and what the file is made of: the
    header, then three bytes for each pixel in row-major order. *)

(** The body of the inner loop of [save_as_ppm], at column [x] of row [y]. *)
Definition put_pixel {A} (c : canvas) (rgb : A -> Z * Z * Z) (st : list A)
    (y : Z) (out : option ostream) (x : Z) : option ostream :=
  os ← out;
  px ← load st (subscript (data c) (u32 (u32 (y * stride c) + x)));
  let '(r, g, b) := rgb px in
  Some (put (put (put os r) g) b).

(** The body of the outer loop: the inner loop over row [y]. *)
Definition put_row {A} (c : canvas) (rgb : A -> Z * Z * Z) (st : list A)
    (out : option ostream) (y : Z) : option ostream :=
  foldl (put_pixel c rgb st y) out (seqZ 0 (width c)).

Definition ppm_header (c : canvas) : string :=
  ("P6" ++ nl ++ print_unsigned (width c) ++ " " ++ print_unsigned (height c)
   ++ nl ++ "255" ++ nl)%string.

Definition rgb_bytes (channels : Z * Z * Z) : string :=
  let '(r, g, b) := channels in put (put (put EmptyString r) g) b.

Definition ppm_body {A} (rgb : A -> Z * Z * Z) (pixels : list A) : string :=
  foldr (fun px rest => String.append (rgb_bytes (rgb px)) rest) EmptyString pixels.

(** Row [y] of a canvas: [width] elements from offset [y * stride]. *)
Definition canvas_row {A} (c : canvas) (base : Z) (st : list A) (y : Z) : list A :=
  take (Z.to_nat (width c)) (drop (Z.to_nat (base + y * stride c)) st).

(** The pixels of a canvas in row-major order. *)
Definition canvas_pixels {A} (c : canvas) (base : Z) (st : list A) : list A :=
  concat (map (canvas_row c base st) (seqZ 0 (height c))).

(** ** The demonstration program ([main.cc])

    [main] fills a Size x Size canvas with the background colour, then walks
    over a grid of cells, filling the view between the corners
    [{i, j} * Cell] and [({i, j} + 1) * Cell] with background or foreground
    by the parity of [i + j], and saves the canvas.  [Size] and [Cell] are
    the two constants of the file; the program is written over them. *)

(** Sequencing of steps that may fault. *)
Definition and_then {S T} (m : outcome S) (k : S -> outcome T) : outcome T :=
  match m with
  | Done s => k s
  | Fault => Fault
  | OutOfFuel => OutOfFuel
  end.

(** The coordinates of a two-element array, as the structured binding of
    [subcanvas_view] reads them (other arities do not pass its
    requires-clause). *)
Definition array_xy (p : list Z) : Z * Z :=
  match p with
  | [x; y] => (x, y)
  | _ => (0, 0)
  end.

Section Demo.
Variables Size Cell : Z.

(** [graphics::canvas canvas { std::array<uint32_t, Size * Size>{}, Size, Size };] *)
Definition demo_canvas : canvas :=
  {| data := {| begin_ := element 0; size_ := u32 (Size * Size) |};
     width := Size; height := Size; stride := Size |}.

Definition demo_storage : list Z := replicate (Z.to_nat (u32 (Size * Size))) 0.

(** [(i + j) % 2 == 0 ? graphics::colors::gruvbox::bg : graphics::colors::gruvbox::fg] *)
Definition cell_colour (i j : Z) : Z :=
  if u32 (i + j) mod 2 =? 0 then colors.gruvbox.bg else colors.gruvbox.fg.

(** The body of the inner loop. *)
Definition draw_cell (fuel : nat) (j : Z) (st : outcome (list Z)) (i : Z)
    : outcome (list Z) :=
  and_then st (fun st =>
    let p1 := math.reduce math.unsigned_call math.multiplies
                (math.vector_of [i; j]) (math.scalar_of Cell) in
    let p2 := q ← math.reduce math.unsigned_call math.plus
                    (math.vector_of [i; j]) (math.scalar_of 1);
              math.reduce math.unsigned_call math.multiplies
                (math.vector_of q) (math.scalar_of Cell) in
    match p1, p2 with
    | Some p1, Some p2 =>
        and_then
          (fill fuel (subcanvas_view array_xy demo_canvas p1 p2)
                (cell_colour i j) st)
          (fun '(st', _) => Done st')
    | _, _ => Fault
    end).

(** [for (unsigned i = 0; i < Size / Cell - 1; ++i)] *)
Definition draw_row (fuel : nat) (st : outcome (list Z)) (j : Z)
    : outcome (list Z) :=
  foldl (draw_cell fuel j) st (seqZ 0 (u32 (Size / Cell - 1))).

(** The canvas when [main] reaches [save_as_ppm]. *)
Definition draw (fuel : nat) : outcome (list Z) :=
  foldl (draw_row fuel)
    (and_then (fill fuel demo_canvas colors.gruvbox.bg demo_storage)
              (fun '(st, _) => Done st))
    (seqZ 0 (u32 (Size / Cell - 1))).

(** The bytes of [result.ppm]. *)
Definition run (fuel : nat) : outcome ostream :=
  and_then (draw fuel) (fun st =>
    match save_as_ppm demo_canvas decode_rgb st with
    | Some out => Done out
    | None => Fault
    end).

(** The storage shows picture [f]: it has Size * Size elements and pixel
    (x, y) holds [f x y]. *)
Definition shows (st : list Z) (f : Z -> Z -> Z) : Prop :=
  length st = Z.to_nat (Size * Size) /\
  forall x y, 0 <= x < Size -> 0 <= y < Size ->
    st !! Z.to_nat (y * Size + x) = Some (f x y).

(** Row [y] meets the band of cells [j]; corners are inclusive. *)
Definition in_band (j y : Z) : bool := (j * Cell <=? y) && (y <=? (j + 1) * Cell).

(** Picture [f] with cell (i, j) drawn over it. *)
Definition over_cell (i j : Z) (f : Z -> Z -> Z) (x y : Z) : Z :=
  if in_band i x && in_band j y then cell_colour i j else f x y.

(** Picture [f] with the first [k] cells of row [j] drawn over it: a pixel
    of the band shows the last of them that reaches it. *)
Definition over_cells (k j : Z) (f : Z -> Z -> Z) (x y : Z) : Z :=
  if (0 <? k) && in_band j y && (x <=? k * Cell)
  then cell_colour (Z.min (k - 1) (x / Cell)) j
  else f x y.

(** The background with the first [m] rows of cells drawn over it. *)
Definition over_rows (m : Z) (x y : Z) : Z :=
  let n := Size / Cell - 1 in
  if (0 <? m) && (0 <? n) && (x <=? n * Cell) && (y <=? m * Cell)
  then cell_colour (Z.min (n - 1) (x / Cell)) (Z.min (m - 1) (y / Cell))
  else colors.gruvbox.bg.

(** The pattern: where the cells reach, the colour of the last cell drawn
    over the pixel; the background elsewhere. *)
Definition pattern (x y : Z) : Z :=
  let n := Size / Cell - 1 in
  if (0 <? n) && (x <=? n * Cell) && (y <=? n * Cell)
  then cell_colour (Z.min (n - 1) (x / Cell)) (Z.min (n - 1) (y / Cell))
  else colors.gruvbox.bg.
End Demo.

(** [constexpr unsigned Size = 600; constexpr unsigned Cell = 40;] *)
Definition Size : Z := 600.
Definition Cell : Z := 40.

(** [int main()] *)
Definition main (fuel : nat) : outcome ostream := run Size Cell fuel.

(** A storage of [n] value-initialised elements, as [std::array<T, n>{}] or
    [std::vector<T>(n)] provide it. *)
Definition zeros (n : Z) : list Z := replicate (Z.to_nat n) 0.

(** The characters of a stream as byte values. *)
Definition ostream_bytes (os : ostream) : list Z :=
  map (fun ch => Z.of_N (N_of_ascii ch)) (list_ascii_of_string os).

(** * Properties *)

(** ** Packed colours *)

Lemma byte_high_bits z i : is_byte z -> 8 <= i -> Z.testbit z i = false.
Proof.
  intros Hz Hi. rewrite <- (Z.mod_small z (2 ^ 8)) by exact Hz.
  apply Z.mod_pow2_bits_high. lia.
Qed.

Lemma encode_rgb_sum r g b :
  is_byte r -> is_byte g -> is_byte b ->
  Z.lor (Z.lor (Z.lor r (Z.shiftl g 8)) (Z.shiftl b 16)) 0xff000000
  = r + 2 ^ 8 * g + 2 ^ 16 * b + 2 ^ 24 * 255.
Proof.
  intros Hr Hg Hb.
  assert (Hd : forall x y, Z.land x y = 0 -> Z.lor x y = x + y).
  { intros x y Hxy. rewrite <- Z.lxor_lor by exact Hxy.
    symmetry. apply Z.add_nocarry_lxor. exact Hxy. }
  assert (H1 : Z.land r (Z.shiftl g 8) = 0).
  { apply Z.bits_inj'. intros i Hi. rewrite Z.land_spec, Z.bits_0.
    destruct (Z.lt_ge_cases i 8).
    - rewrite Z.shiftl_spec_low by lia. apply andb_false_r.
    - rewrite (byte_high_bits r i) by assumption. reflexivity. }
  rewrite (Hd _ _ H1), Z.shiftl_mul_pow2 by lia.
  assert (H2 : Z.land (r + g * 2 ^ 8) (Z.shiftl b 16) = 0).
  { apply Z.bits_inj'. intros i Hi. rewrite Z.land_spec, Z.bits_0.
    destruct (Z.lt_ge_cases i 16).
    - rewrite Z.shiftl_spec_low by lia. apply andb_false_r.
    - rewrite <- (Z.mod_small (r + g * 2 ^ 8) (2 ^ 16)) by (unfold is_byte in *; lia).
      rewrite Z.mod_pow2_bits_high by lia. reflexivity. }
  rewrite (Hd _ _ H2), Z.shiftl_mul_pow2 by lia.
  assert (H3 : Z.land (r + g * 2 ^ 8 + b * 2 ^ 16) 0xff000000 = 0).
  { apply Z.bits_inj'. intros i Hi. rewrite Z.land_spec, Z.bits_0.
    destruct (Z.lt_ge_cases i 24).
    - change 0xff000000 with (Z.shiftl 255 24).
      rewrite Z.shiftl_spec_low by lia. apply andb_false_r.
    - rewrite <- (Z.mod_small (r + g * 2 ^ 8 + b * 2 ^ 16) (2 ^ 24))
        by (unfold is_byte in *; lia).
      rewrite Z.mod_pow2_bits_high by lia. reflexivity. }
  rewrite (Hd _ _ H3). lia.
Qed.

(** A mask of eight ones at bit [k], followed by the shift back. *)
Lemma mask_shift x k :
  0 <= k -> 0 <= x ->
  Z.shiftr (Z.land x (Z.shiftl 255 k)) k = (x / 2 ^ k) mod 2 ^ 8.
Proof.
  intros Hk Hx.
  rewrite Z.shiftr_land, Z.shiftr_shiftl_l, Z.sub_diag, Z.shiftl_0_r by lia.
  change 255 with (Z.ones 8). rewrite Z.land_ones by lia.
  rewrite Z.shiftr_div_pow2 by lia. reflexivity.
Qed.

Lemma decode_rgb_bytes color :
  0 <= color ->
  decode_rgb color
  = (color mod 2 ^ 8, (color / 2 ^ 8) mod 2 ^ 8, (color / 2 ^ 16) mod 2 ^ 8).
Proof.
  intros Hc. unfold decode_rgb, u8.
  change 0x000000FF with (Z.shiftl 255 0).
  change 0x0000FF00 with (Z.shiftl 255 8).
  change 0x00FF0000 with (Z.shiftl 255 16).
  change (8 * 0) with 0. change (8 * 1) with 8. change (8 * 2) with 16.
  rewrite !mask_shift by lia.
  rewrite !Z.mod_mod by lia.
  change (2 ^ 0) with 1. rewrite Z.div_1_r. reflexivity.
Qed.

Lemma encode_rgb_value r g b :
  is_byte r -> is_byte g -> is_byte b ->
  encode_rgb r g b = r + 2 ^ 8 * g + 2 ^ 16 * b + 2 ^ 24 * 255.
Proof.
  intros Hr Hg Hb. unfold encode_rgb, u32. change (2 * 8) with 16.
  rewrite encode_rgb_sum by assumption.
  apply Z.mod_small. unfold is_byte in *. lia.
Qed.

(** C8.  For all byte values r, g, b the packed colour is
    R | (G<<8) | (B<<16) | (0xFF<<24), decoding it gives back (r, g, b), and
    decoding reads the three low bytes of a colour only: the top byte does not
    reach the result. *)
Theorem decode_encode_roundtrip r g b :
  is_byte r -> is_byte g -> is_byte b ->
  encode_rgb r g b = packed r g b /\
  decode_rgb (encode_rgb r g b) = (r, g, b) /\
  (forall color, is_unsigned color ->
     decode_rgb color
     = (color mod 2 ^ 8, (color / 2 ^ 8) mod 2 ^ 8, (color / 2 ^ 16) mod 2 ^ 8) /\
     decode_rgb color = decode_rgb (color mod 2 ^ 24)).
Proof.
  intros Hr Hg Hb. split; [|split].
  - rewrite encode_rgb_value by assumption. unfold packed.
    change (Z.shiftl 255 24) with 0xff000000.
    rewrite encode_rgb_sum by assumption. reflexivity.
  - rewrite encode_rgb_value by assumption.
    rewrite decode_rgb_bytes by (unfold is_byte in *; lia).
    unfold is_byte in *.
    apply pair_equal_spec; split; [apply pair_equal_spec; split|];
      Z.div_mod_to_equations; lia.
  - intros color Hc. unfold is_unsigned in Hc.
    assert (0 <= color mod 2 ^ 24) by (apply Z.mod_pos_bound; lia).
    rewrite !decode_rgb_bytes by lia. split; [reflexivity|].
    apply pair_equal_spec; split; [apply pair_equal_spec; split|];
      Z.div_mod_to_equations; lia.
Qed.

Lemma decode_encode_roundtrip_witness :
  decode_rgb (encode_rgb 18 52 86) = (18, 52, 86).
Proof.
  refine (proj1 (proj2 (decode_encode_roundtrip 18 52 86 _ _ _)));
    unfold is_byte; lia.
Defined.

(** ** Output streams *)

Lemma append_assoc (a b c : string) :
  String.append (String.append a b) c = String.append a (String.append b c).
Proof. induction a as [|ch a IH]; simpl; [reflexivity | now rewrite IH]. Qed.

Lemma write_write os a b : write (write os a) b = write os (String.append a b).
Proof. unfold write. apply append_assoc. Qed.

(** C7.  A 2x1 canvas (any stride, any storage behind the two pixels) whose
    pixels are encode_rgb(255,0,0) and encode_rgb(0,255,0), saved with
    decode_rgb, yields the header P6\n2 1\n255\n followed by the six bytes
    FF 00 00 00 FF 00 and nothing else. *)
Theorem save_as_ppm_two_pixels :
  forall (row_pitch extent : Z) (rest : list Z),
    let c := {| data := {| begin_ := element 0; size_ := extent |};
                width := 2; height := 1; stride := row_pitch |} in
    let st := encode_rgb 255 0 0 :: encode_rgb 0 255 0 :: rest in
    exists out,
      save_as_ppm c decode_rgb st = Some out /\
      out = String.append ("P6" ++ nl ++ "2 1" ++ nl ++ "255" ++ nl)%string
              (put (put (put (put (put (put EmptyString 0xFF) 0) 0) 0) 0xFF) 0) /\
      ostream_bytes out
      = [80; 54; 10; 50; 32; 49; 10; 50; 53; 53; 10;
         0xFF; 0x00; 0x00; 0x00; 0xFF; 0x00].
Proof.
  intros row_pitch extent rest c st. eexists. split; [|split].
  - subst c st. unfold save_as_ppm. cbn [width height stride data].
    change (seqZ 0 1) with [0]. change (seqZ 0 2) with [0; 1].
    cbn [foldl]. rewrite Z.mul_0_l. vm_compute. reflexivity.
  - vm_compute. reflexivity.
  - vm_compute. reflexivity.
Qed.

(** ** The stream output of a vector *)

Section PrintFacts.
Context {T : Type} (show : T -> string).

Lemma stream_elements_rest (rest : list T) :
  forall (x : T) (os : ostream) (I : nat),
    math.stream_elements show (write os (show x)) (S I) rest
    = write os (String.concat ", " (map show (x :: rest))).
Proof.
  induction rest as [|y rest IH]; intros x os I.
  - reflexivity.
  - cbn [math.stream_elements]. change (0 <? S I)%nat with true. cbv iota.
    rewrite IH. rewrite !write_write.
    change (map show (x :: y :: rest)) with (show x :: map show (y :: rest)).
    reflexivity.
Qed.

Lemma operator_shl_nonempty (os : ostream) (x : T) (rest : list T) :
  math.operator_shl show os (x :: rest)
  = write os (math.spec_format show (x :: rest)).
Proof.
  unfold math.operator_shl, math.spec_format.
  cbn [math.stream_elements]. change (0 <? 0)%nat with false. cbv iota.
  rewrite stream_elements_rest. rewrite !write_write. reflexivity.
Qed.
End PrintFacts.

(** C9.  On a vector of arity zero the output operator writes the closing
    parenthesis alone: the opening one is written together with element 0,
    and there is none.  The representation asked for, the empty pair, is not
    what comes out. *)
Lemma operator_shl_zero_arity :
  math.operator_shl print_unsigned EmptyString [] = ")"%string /\
  math.operator_shl print_unsigned EmptyString []
  <> math.spec_format print_unsigned [].
Proof. split; [reflexivity | discriminate]. Qed.

(** X25.  For every vector with at least one element the output operator
    appends a leading parenthesis, the elements separated by comma and
    space, and a trailing parenthesis, after whatever the stream holds. *)
Theorem operator_shl_format {T} (show : T -> string) (os : ostream) (vec : list T) :
  vec <> [] ->
  math.operator_shl show os vec = write os (math.spec_format show vec).
Proof.
  destruct vec as [|x rest]; [congruence | intros _].
  apply operator_shl_nonempty.
Qed.

Lemma operator_shl_format_witness :
  math.operator_shl print_unsigned EmptyString [40; 80; 120]
  = "(40, 80, 120)"%string.
Proof.
  refine (eq_trans (operator_shl_format print_unsigned EmptyString [40; 80; 120] _) _).
  - discriminate.
  - reflexivity.
Defined.

(** ** Vector arithmetic *)

Section ReduceFacts.
Context {L R T : Type} (call : math.binary_operator -> L -> R -> T).
Import math.

Lemma u32_small z : is_unsigned z -> u32 z = z.
Proof. intros Hz. apply Z.mod_small. exact Hz. Qed.

Lemma u32_range z : is_unsigned (u32 z).
Proof. apply Z.mod_pos_bound. lia. Qed.

Lemma u32_le z : 0 <= z -> u32 z <= z.
Proof. intros Hz. apply Z.mod_le; lia. Qed.

Lemma tuple_size_nonneg {X} (o : operand X) : 0 <= tuple_size o.
Proof. destruct o; unfold tuple_size, size_max; lia. Qed.

(** [N] never exceeds the arity of a vector operand, so every [std::get<I>]
    of the expansion is in range. *)
Lemma vector_min_size_le_l {X Y} (l : list X) (rhs : operand Y) :
  vector_min_size (vector_of l) rhs <= Z.of_nat (length l).
Proof.
  unfold vector_min_size.
  pose proof (tuple_size_nonneg rhs).
  etransitivity; [apply u32_le|]; cbn [tuple_size]; lia.
Qed.

Lemma vector_min_size_le_r {X Y} (lhs : operand X) (r : list Y) :
  vector_min_size lhs (vector_of r) <= Z.of_nat (length r).
Proof.
  unfold vector_min_size.
  pose proof (tuple_size_nonneg lhs).
  etransitivity; [apply u32_le|]; cbn [tuple_size]; lia.
Qed.

Lemma element_i_in_range_l {X Y} (lhs : operand X) (rhs : operand Y) (i : nat) :
  Z.of_nat i < vector_min_size lhs rhs -> is_Some (element_i lhs i).
Proof.
  destruct lhs as [l|s]; cbn [element_i]; [|eauto].
  intros Hi. apply lookup_lt_is_Some.
  pose proof (vector_min_size_le_l l rhs). lia.
Qed.

Lemma element_i_in_range_r {X Y} (lhs : operand X) (rhs : operand Y) (i : nat) :
  Z.of_nat i < vector_min_size lhs rhs -> is_Some (element_i rhs i).
Proof.
  destruct rhs as [r|s]; cbn [element_i]; [|eauto].
  intros Hi. apply lookup_lt_is_Some.
  pose proof (vector_min_size_le_r lhs r). lia.
Qed.

(** The three branches of [reduce] are one expansion over [element_i]. *)
Lemma reduce_unfold op lhs rhs :
  reduce call op lhs rhs
  = if is_vector lhs || is_vector rhs
    then std_array (mapM (expansion call op lhs rhs)
                         (index_sequence (vector_min_size lhs rhs)))
    else None.
Proof. destruct lhs, rhs; reflexivity. Qed.

Lemma mapM_seq (f : nat -> option T) (n : nat) (r : list T) :
  mapM f (seq 0 n) = Some r <->
  length r = n /\ forall i, (i < n)%nat -> r !! i = f i /\ is_Some (f i).
Proof.
  rewrite mapM_Some. split.
  - intros HF. pose proof (Forall2_length _ _ _ HF) as Hlen.
    rewrite length_seq in Hlen. split; [lia|].
    intros i Hi.
    destruct (Forall2_lookup_l _ _ _ i i HF) as (y & Hy & Hf).
    { apply lookup_seq. lia. }
    rewrite Hy, Hf. eauto.
  - intros [Hlen Hr]. apply Forall2_same_length_lookup_2.
    { rewrite length_seq. lia. }
    intros i x y Hx Hy. apply lookup_seq in Hx as [-> Hi].
    destruct (Hr i Hi) as [Heq _]. cbn in Heq |- *. congruence.
Qed.

Lemma std_array_Some (elems : option (list T)) (r : list T) :
  std_array elems = Some r <-> elems = Some r /\ r <> [].
Proof.
  unfold std_array. destruct elems as [[|e es]|]; split;
    intros; destruct_and?; simplify_eq; try done.
Qed.

(** What [reduce] returns, in full. *)
Lemma reduce_Some op lhs rhs (r : list T) :
  reduce call op lhs rhs = Some r <->
  is_vector lhs || is_vector rhs = true /\
  0 < vector_min_size lhs rhs /\
  Z.of_nat (length r) = vector_min_size lhs rhs /\
  forall i, Z.of_nat i < vector_min_size lhs rhs ->
    r !! i = expansion call op lhs rhs i.
Proof.
  rewrite reduce_unfold.
  pose proof (u32_range (Z.min (tuple_size lhs) (tuple_size rhs))) as HN.
  fold (vector_min_size lhs rhs) in HN. unfold is_unsigned in HN.
  destruct (is_vector lhs || is_vector rhs); [|split; [done | intros []; done]].
  unfold index_sequence. rewrite std_array_Some, mapM_seq. split.
  - intros [[Hlen Hr] Hne]. split; [done|].
    assert (0 < length r)%nat by (destruct r; [done | cbn; lia]).
    split; [lia|]. split; [lia|].
    intros i Hi. apply Hr. lia.
  - intros (_ & Hpos & Hlen & Hr). split; [split|].
    + lia.
    + intros i Hi. split; [apply Hr; lia|].
      unfold expansion.
      destruct (element_i_in_range_l lhs rhs i ltac:(lia)) as [x ->].
      destruct (element_i_in_range_r lhs rhs i ltac:(lia)) as [y ->].
      cbn. eauto.
    + intros ->. cbn in Hlen. lia.
Qed.

(** [reduce] returns whenever an operand is a vector and [N] is positive. *)
Lemma reduce_total op lhs rhs :
  is_vector lhs || is_vector rhs = true ->
  0 < vector_min_size lhs rhs ->
  exists r, reduce call op lhs rhs = Some r.
Proof.
  intros Hv Hpos.
  pose proof (u32_range (Z.min (tuple_size lhs) (tuple_size rhs))) as HN.
  fold (vector_min_size lhs rhs) in HN. unfold is_unsigned in HN.
  destruct (mapM (expansion call op lhs rhs)
              (index_sequence (vector_min_size lhs rhs))) as [r|] eqn:Hm.
  - exists r. rewrite reduce_unfold, Hv, Hm.
    apply std_array_Some. split; [done|].
    apply mapM_seq in Hm as [Hlen _]. intros ->. cbn in Hlen. lia.
  - apply mapM_None in Hm. apply Exists_exists in Hm as (i & Hin & Hnone).
    unfold index_sequence in Hin. apply elem_of_seq in Hin.
    unfold expansion in Hnone.
    destruct (element_i_in_range_l lhs rhs i ltac:(lia)) as [x Hx].
    destruct (element_i_in_range_r lhs rhs i ltac:(lia)) as [y Hy].
    rewrite Hx, Hy in Hnone. done.
Qed.
End ReduceFacts.

Section ReduceArity.
Context {L R T : Type} (call : math.binary_operator -> L -> R -> T).
Import math.

Lemma spec_min_arity_vector {X Y} (lhs : operand X) (rhs : operand Y) (n : nat) :
  spec_min_arity lhs rhs = Some n -> is_vector lhs || is_vector rhs = true.
Proof. destruct lhs, rhs; cbn; congruence. Qed.

(** Below [2^32] the stored [unsigned] is the minimum arity itself. *)
Lemma vector_min_size_spec {X Y} (lhs : operand X) (rhs : operand Y) (n : nat) :
  spec_min_arity lhs rhs = Some n ->
  Z.of_nat n < 2 ^ 32 ->
  vector_min_size lhs rhs = Z.of_nat n.
Proof.
  intros Hn Hlt. unfold vector_min_size.
  destruct lhs as [l|s], rhs as [r|s']; cbn in Hn; simplify_eq;
    cbn [tuple_size]; unfold size_max;
    (rewrite u32_small; [lia | unfold is_unsigned; lia]).
Qed.

Lemma spec_min_arity_first_n {X Y} (lhs : operand X) (rhs : operand Y) (n : nat) :
  spec_min_arity lhs rhs = Some n ->
  spec_min_arity (first_n n lhs) (first_n n rhs) = Some n.
Proof.
  intros Hn.
  destruct lhs as [l|s], rhs as [r|s']; cbn in Hn |- *; simplify_eq;
    rewrite ?length_take; f_equal; lia.
Qed.

Lemma element_i_first_n {X} (o : operand X) (n i : nat) :
  (i < n)%nat -> element_i (first_n n o) i = element_i o i.
Proof.
  intros Hi. destruct o as [l|s]; cbn; [|reflexivity].
  apply lookup_take_lt. exact Hi.
Qed.
End ReduceArity.

(** C4.  For each of the four operators and operands of which at least one is
    a vector, the result has at every position i below the result arity N the
    value op(element_i(lhs), element_i(rhs)), where the element of a vector
    is its i-th element and the element of a scalar is the scalar itself.
    (The result exists when N is positive: an array of no elements has no
    deducible type.) *)
Theorem reduce_elementwise {L R T} (call : math.binary_operator -> L -> R -> T)
    (op : math.binary_operator) (lhs : math.operand L) (rhs : math.operand R) :
  math.is_vector lhs || math.is_vector rhs = true ->
  0 < math.vector_min_size lhs rhs ->
  exists r,
    math.apply_operator call op lhs rhs = Some r /\
    Z.of_nat (length r) = math.vector_min_size lhs rhs /\
    forall i, Z.of_nat i < math.vector_min_size lhs rhs ->
      exists x y,
        math.element_i lhs i = Some x /\
        math.element_i rhs i = Some y /\
        r !! i = Some (call op x y).
Proof.
  intros Hv Hpos.
  destruct (reduce_total call op lhs rhs Hv Hpos) as [r Hr].
  exists r. split.
  { destruct op; exact Hr. }
  apply reduce_Some in Hr as (_ & _ & Hlen & Hpos').
  split; [exact Hlen|].
  intros i Hi.
  destruct (element_i_in_range_l lhs rhs i Hi) as [x Hx].
  destruct (element_i_in_range_r lhs rhs i Hi) as [y Hy].
  exists x, y. split; [exact Hx|]. split; [exact Hy|].
  rewrite (Hpos' i Hi). unfold math.expansion. rewrite Hx, Hy. reflexivity.
Qed.

Lemma reduce_elementwise_witness :
  exists r,
    math.apply_operator math.unsigned_call math.multiplies
      (math.vector_of [3; 7]) (math.scalar_of 40) = Some r /\
    Z.of_nat (length r) = 2 /\
    forall i, Z.of_nat i < 2 ->
      exists x y,
        math.element_i (math.vector_of [3; 7]) i = Some x /\
        math.element_i (math.scalar_of 40) i = Some y /\
        r !! i = Some (math.unsigned_call math.multiplies x y).
Proof.
  apply (reduce_elementwise math.unsigned_call math.multiplies
           (math.vector_of [3; 7]) (math.scalar_of 40)).
  - reflexivity.
  - reflexivity.
Defined.

(** C5.  Whenever the minimum arity n among the vector operands (a scalar
    constrains nothing) is positive and representable in [unsigned], the
    stored N is n, the result has arity n, and it is computed from the first
    n elements of each vector operand alone. *)
Theorem reduce_arity {L R T} (call : math.binary_operator -> L -> R -> T)
    (op : math.binary_operator) (lhs : math.operand L) (rhs : math.operand R)
    (n : nat) :
  math.spec_min_arity lhs rhs = Some n ->
  (0 < n)%nat ->
  Z.of_nat n < 2 ^ 32 ->
  math.vector_min_size lhs rhs = Z.of_nat n /\
  exists r,
    math.reduce call op lhs rhs = Some r /\
    length r = n /\
    math.reduce call op (math.first_n n lhs) (math.first_n n rhs) = Some r.
Proof.
  intros Hn Hpos Hlt.
  pose proof (vector_min_size_spec lhs rhs n Hn Hlt) as HN.
  split; [exact HN|].
  destruct (reduce_total call op lhs rhs) as [r Hr].
  { eapply spec_min_arity_vector. exact Hn. }
  { lia. }
  exists r. split; [exact Hr|].
  apply reduce_Some in Hr as (_ & _ & Hlen & Hel).
  split; [lia|].
  pose proof (spec_min_arity_first_n lhs rhs n Hn) as Hn'.
  pose proof (vector_min_size_spec _ _ n Hn' Hlt) as HN'.
  apply reduce_Some. rewrite HN'.
  split; [eapply spec_min_arity_vector; exact Hn'|].
  split; [lia|]. split; [lia|].
  intros i Hi. rewrite Hel by lia.
  unfold math.expansion.
  rewrite !element_i_first_n by lia. reflexivity.
Qed.

Lemma reduce_arity_witness :
  math.vector_min_size (math.vector_of [1; 2]) (math.vector_of [10; 20; 30]) = 2 /\
  exists r,
    math.reduce math.unsigned_call math.plus
      (math.vector_of [1; 2]) (math.vector_of [10; 20; 30]) = Some r /\
    length r = 2%nat /\
    math.reduce math.unsigned_call math.plus
      (math.first_n 2 (math.vector_of [1; 2]))
      (math.first_n 2 (math.vector_of [10; 20; 30])) = Some r.
Proof.
  apply (reduce_arity math.unsigned_call math.plus
           (math.vector_of [1; 2]) (math.vector_of [10; 20; 30]) 2%nat).
  - reflexivity.
  - lia.
  - lia.
Defined.

(** ** Storage *)

Section StorageFacts.
Context {A : Type}.
Implicit Types (st : list A) (v : A).

Lemma store_inside st i v :
  0 <= i < Z.of_nat (length st) ->
  store st (element i) v = Some (<[Z.to_nat i := v]> st).
Proof. intros Hi. unfold store. rewrite bool_decide_eq_true_2; done. Qed.

(** [std::fill] over a range inside the storage: the range holds the value,
    everything else is as before. *)
Lemma std_fill_inside v (count : nat) :
  forall st (a : Z),
    0 <= a -> a + Z.of_nat count <= Z.of_nat (length st) ->
    exists st',
      std_fill st (element a) count v = Some st' /\
      length st' = length st /\
      forall j : nat,
        (a <= Z.of_nat j < a + Z.of_nat count -> st' !! j = Some v) /\
        (~ a <= Z.of_nat j < a + Z.of_nat count -> st' !! j = st !! j).
Proof.
  induction count as [|count IH]; intros st a Ha Hb.
  - exists st. cbn. split; [done|]. split; [done|].
    intros j. split; [lia | done].
  - cbn [std_fill ptr_add]. rewrite store_inside by lia.
    destruct (IH (<[Z.to_nat a := v]> st) (a + 1)) as (st' & Hrun & Hlen & Hst').
    { lia. } { rewrite length_insert. lia. }
    exists st'. rewrite Hrun. split; [done|].
    rewrite length_insert in Hlen. split; [done|].
    intros j. destruct (Hst' j) as [Hin Hout]. split.
    + intros Hj. destruct (decide (Z.of_nat j = a)) as [Heq|Hne].
      * rewrite Hout by lia. subst a. rewrite Nat2Z.id.
        apply list_lookup_insert_eq. lia.
      * apply Hin. lia.
    + intros Hj. rewrite Hout by lia.
      apply list_lookup_insert_ne. lia.
Qed.

Lemma std_fill_nothing st (p : pointer) v : std_fill st p 0 v = Some st.
Proof. reflexivity. Qed.
End StorageFacts.

(** ** The row loop of [fill] *)

Section FillFacts.
Context {A : Type}.
Implicit Types (st : list A) (v : A) (c : canvas).

Lemma u32_pred_zero : u32 (0 - 1) = 2 ^ 32 - 1.
Proof. reflexivity. Qed.

Lemma row_start_next c y : u32 (row_start c y + stride c) = row_start c (y + 1).
Proof.
  unfold row_start, u32. rewrite Zplus_mod_idemp_l. f_equal. lia.
Qed.

(** The loop test [--h < height] lets exactly the remaining rows through,
    whatever the body does to the storage. *)
Lemma fill_rows_count c v (m : nat) :
  forall (fuel : nat) (cursor : Z) st (rows : nat),
    is_unsigned (height c) ->
    Z.of_nat m <= height c ->
    (m < fuel)%nat ->
    fill_rows fuel c v cursor (Z.of_nat m) st rows <> OutOfFuel /\
    forall st' n,
      fill_rows fuel c v cursor (Z.of_nat m) st rows = Done (st', n) ->
      n = (rows + m)%nat.
Proof.
  unfold is_unsigned.
  induction m as [|m IH]; intros fuel cursor st rows HH Hm Hfuel;
    (destruct fuel as [|fuel]; [lia|]); cbn [fill_rows].
  - change (u32 (Z.of_nat 0 - 1)) with (2 ^ 32 - 1).
    destruct (Z.ltb_spec (2 ^ 32 - 1) (height c)); [lia|].
    split; [done|]. intros st' n [= <- <-]. lia.
  - replace (u32 (Z.of_nat (S m) - 1)) with (Z.of_nat m)
      by (unfold u32; rewrite Z.mod_small; lia).
    destruct (Z.ltb_spec (Z.of_nat m) (height c)); [|lia].
    destruct (std_fill st _ _ v) as [st1|]; [|split; done].
    destruct (IH fuel (u32 (cursor + stride c)) st1 (S rows)) as [Hnf Hn];
      [done | lia | lia |].
    split; [done|]. intros st' n Hrun. rewrite (Hn st' n Hrun). lia.
Qed.
End FillFacts.

Section FillRun.
Context {A : Type}.
Implicit Types (st : list A) (v : A) (c : canvas).

(** The loop from row [height - m] on, when the rows still to be written lie
    in the storage: it ends after [m] more rows; their cells hold the value,
    cells holding the value keep it, and the cells of no such row are as
    before. *)
Lemma fill_rows_run c v (base : Z) (m : nat) :
  forall (fuel : nat) st (rows : nat),
    is_unsigned (height c) -> 0 <= width c ->
    begin_ (data c) = element base -> 0 <= base ->
    Z.of_nat m <= height c ->
    (m < fuel)%nat ->
    (forall y, height c - Z.of_nat m <= y < height c ->
       base + row_start c y + width c <= Z.of_nat (length st)) ->
    exists st',
      fill_rows fuel c v (row_start c (height c - Z.of_nat m)) (Z.of_nat m) st rows
      = Done (st', (rows + m)%nat) /\
      length st' = length st /\
      forall j : nat,
        (forall y, height c - Z.of_nat m <= y < height c ->
           in_row c base y j -> st' !! j = Some v) /\
        (st !! j = Some v -> st' !! j = Some v) /\
        ((forall y, height c - Z.of_nat m <= y < height c -> ~ in_row c base y j) ->
         st' !! j = st !! j).
Proof.
  unfold is_unsigned.
  induction m as [|m IH]; intros fuel st rows HH HW Hdata Hbase Hm Hfuel Hin;
    (destruct fuel as [|fuel]; [lia|]); cbn [fill_rows].
  - change (u32 (Z.of_nat 0 - 1)) with (2 ^ 32 - 1).
    destruct (Z.ltb_spec (2 ^ 32 - 1) (height c)); [lia|].
    exists st. rewrite Nat.add_0_r. split; [done|]. split; [done|].
    intros j. split; [|done]. intros y Hy. lia.
  - replace (u32 (Z.of_nat (S m) - 1)) with (Z.of_nat m)
      by (unfold u32; rewrite Z.mod_small; lia).
    destruct (Z.ltb_spec (Z.of_nat m) (height c)); [|lia].
    set (y0 := height c - Z.of_nat (S m)).
    assert (Hstart : 0 <= row_start c y0 < 2 ^ 32) by apply u32_range.
    unfold subscript. rewrite Hdata. cbn [ptr_add].
    destruct (std_fill_inside v (Z.to_nat (width c)) st (base + row_start c y0))
      as (st1 & Hrow & Hlen1 & Hst1).
    { lia. }
    { rewrite Z2Nat.id by lia. apply Hin. subst y0. lia. }
    rewrite Hrow. rewrite row_start_next.
    replace (y0 + 1) with (height c - Z.of_nat m) by (subst y0; lia).
    destruct (IH fuel st1 (S rows)) as (st' & Hrun & Hlen & Hst');
      [done | done | done | done | lia | lia | |].
    { intros y Hy. rewrite Hlen1. apply Hin. lia. }
    exists st'. rewrite Hrun. split; [f_equal; f_equal; lia|].
    split; [congruence|].
    intros j. destruct (Hst' j) as (Hrows & Hkeep & Hrest).
    destruct (Hst1 j) as [Hin1 Hout1]. rewrite Z2Nat.id in Hin1, Hout1 by lia.
    split; [|split].
    + intros y Hy Hj.
      destruct (decide (y = y0)) as [->|Hne].
      * apply Hkeep, Hin1. exact Hj.
      * apply (Hrows y); [subst y0; lia | exact Hj].
    + intros Hv. apply Hkeep.
      destruct (decide (base + row_start c y0 <= Z.of_nat j
                        < base + row_start c y0 + width c)) as [Hj|Hj].
      * apply Hin1. exact Hj.
      * rewrite Hout1 by exact Hj. exact Hv.
    + intros Hno. rewrite Hrest.
      * apply Hout1. apply (Hno y0). subst y0. lia.
      * intros y Hy. apply Hno. subst y0. lia.
Qed.

(** [fill] on a canvas whose rows lie in the storage. *)
Lemma fill_run c v (base : Z) (fuel : nat) st :
  is_unsigned (height c) -> 0 <= width c ->
  begin_ (data c) = element base -> 0 <= base ->
  (Z.to_nat (height c) < fuel)%nat ->
  rows_inside c base st ->
  exists st',
    fill fuel c v st = Done (st', Z.to_nat (height c)) /\
    length st' = length st /\
    forall j : nat,
      (forall y, 0 <= y < height c -> in_row c base y j -> st' !! j = Some v) /\
      ((forall y, 0 <= y < height c -> ~ in_row c base y j) ->
       st' !! j = st !! j).
Proof.
  intros HH HW Hdata Hbase Hfuel Hin. unfold is_unsigned in HH.
  destruct (fill_rows_run c v base (Z.to_nat (height c)) fuel st 0)
    as (st' & Hrun & Hlen & Hst'); try done.
  { lia. }
  { intros y Hy. apply Hin. lia. }
  rewrite Z2Nat.id in Hrun, Hst' by lia.
  rewrite Z.sub_diag in Hrun, Hst'.
  exists st'. split; [exact Hrun|]. split; [exact Hlen|].
  intros j. destruct (Hst' j) as (Hrows & _ & Hrest).
  split; [exact Hrows | exact Hrest].
Qed.

(** Without wrap-around the cursor of row [y] is [y * stride]. *)
Lemma row_start_exact c y :
  is_unsigned (stride c) -> height c * stride c < 2 ^ 32 ->
  0 <= y < height c -> row_start c y = y * stride c.
Proof.
  unfold is_unsigned. intros HS Hext Hy.
  unfold row_start. apply u32_small. unfold is_unsigned. nia.
Qed.

Lemma rows_inside_of_inside c base st :
  geometry_ok c -> inside c base st -> rows_inside c base st.
Proof.
  intros (HW & HH & HS & HWS & Hext) Hin y Hy.
  rewrite row_start_exact by done.
  unfold is_unsigned in *. unfold inside in Hin. nia.
Qed.
End FillRun.

(** *** Offsets of a row-major layout *)

(** A padding column of one row is no pixel column of any row. *)
Lemma row_offsets_apart (S W x y x' y' : Z) :
  0 <= S -> 0 <= x' < W -> W <= x < S ->
  y * S + x <> y' * S + x'.
Proof.
  intros HS Hx' Hx Heq.
  destruct (Z.lt_trichotomy y y') as [Hlt|[->|Hgt]].
  - assert (S <= (y' - y) * S) by nia. nia.
  - lia.
  - assert (S <= (y - y') * S) by nia. nia.
Qed.

Lemma offset_nonneg (S x y : Z) : 0 <= S -> 0 <= x -> 0 <= y -> 0 <= y * S + x.
Proof. intros. pose proof (Z.mul_nonneg_nonneg y S). lia. Qed.

(** ** The canvas *)

(** C10.  For every [unsigned] height, 0 and the largest value included, and
    any fuel above it, the row loop of [fill] ends, and when it ends normally
    its body has run exactly [height] times; it does end normally when the
    rows lie in the storage; with height 0 nothing is written. *)
Theorem fill_row_loop_terminates {A} (c : canvas) (v : A) (st : list A) (fuel : nat) :
  is_unsigned (height c) ->
  (Z.to_nat (height c) < fuel)%nat ->
  fill fuel c v st <> OutOfFuel /\
  (forall st' rows,
     fill fuel c v st = Done (st', rows) -> rows = Z.to_nat (height c)) /\
  (forall base,
     begin_ (data c) = element base -> 0 <= base -> 0 <= width c ->
     rows_inside c base st ->
     exists st', fill fuel c v st = Done (st', Z.to_nat (height c))) /\
  (height c = 0 -> fill fuel c v st = Done (st, 0%nat)).
Proof.
  intros HH Hfuel. pose proof HH as [Hlo Hhi].
  destruct (fill_rows_count c v (Z.to_nat (height c)) fuel 0 st 0 HH)
    as [Hnf Hn]; [lia | lia |].
  rewrite Z2Nat.id in Hnf, Hn by lia.
  split; [exact Hnf|]. split; [|split].
  - intros st' rows Hrun. apply (Hn st' rows Hrun).
  - intros base Hdata Hbase HW Hin.
    destruct (fill_run c v base fuel st HH HW Hdata Hbase Hfuel Hin)
      as (st' & Hrun & _).
    exists st'. exact Hrun.
  - intros H0. unfold fill. rewrite H0.
    destruct fuel as [|fuel]; [lia|]. cbn [fill_rows].
    change (u32 (0 - 1)) with (2 ^ 32 - 1). rewrite H0.
    reflexivity.
Qed.

Lemma fill_row_loop_terminates_witness :
  fill 4 {| data := {| begin_ := element 0; size_ := 6 |};
            width := 2; height := 3; stride := 2 |} 7 [0; 0; 0; 0; 0; 0]
  <> OutOfFuel.
Proof.
  refine (proj1 (fill_row_loop_terminates
    {| data := {| begin_ := element 0; size_ := 6 |};
       width := 2; height := 3; stride := 2 |} 7 [0; 0; 0; 0; 0; 0] 4%nat _ _)).
  - unfold is_unsigned. simpl. lia.
  - simpl. lia.
Defined.

(** C3.  For a canvas of width W, height H and stride >= W, with
    H * stride below 2^32, that lies in its storage, [fill v] ends after H
    rows; afterwards every pixel (x, y) with
    0 <= x < W and 0 <= y < H, at offset y*stride + x, equals v, every
    element at a column index x with W <= x < stride of a row is what it was
    before, and so is every element of the storage outside the pixels. *)
Theorem fill_pixels_and_padding {A} (c : canvas) (v : A) (st : list A)
    (base : Z) (fuel : nat) :
  geometry_ok c ->
  canvas_at c base ->
  inside c base st ->
  (Z.to_nat (height c) < fuel)%nat ->
  exists st',
    fill fuel c v st = Done (st', Z.to_nat (height c)) /\
    length st' = length st /\
    (forall x y, 0 <= x < width c -> 0 <= y < height c ->
       st' !! Z.to_nat (base + y * stride c + x) = Some v) /\
    (forall x y, width c <= x < stride c -> 0 <= y < height c ->
       st' !! Z.to_nat (base + y * stride c + x)
       = st !! Z.to_nat (base + y * stride c + x)) /\
    (forall j : nat,
       (forall x y, 0 <= x < width c -> 0 <= y < height c ->
          Z.of_nat j <> base + y * stride c + x) ->
       st' !! j = st !! j).
Proof.
  intros Hgeo [Hdata Hbase] Hin Hfuel.
  pose proof Hgeo as (HW & HH & HS & HWS & Hext).
  destruct (fill_run c v base fuel st) as (st' & Hrun & Hlen & Hst'); try done.
  { apply HW. }
  { apply rows_inside_of_inside; done. }
  exists st'. split; [exact Hrun|]. split; [exact Hlen|].
  assert (Hrest : forall j : nat,
             (forall x y, 0 <= x < width c -> 0 <= y < height c ->
                Z.of_nat j <> base + y * stride c + x) ->
             st' !! j = st !! j).
  { intros j Hj. apply (Hst' j). intros y Hy [Hlo Hhi].
    rewrite row_start_exact in Hlo, Hhi by done.
    apply (Hj (Z.of_nat j - base - y * stride c) y); lia. }
  unfold is_unsigned in HW, HH, HS.
  split; [|split].
  - intros x y Hx Hy. apply (Hst' _) with (y := y); [exact Hy|].
    unfold in_row. rewrite row_start_exact by done.
    pose proof (offset_nonneg (stride c) x y).
    rewrite Z2Nat.id by lia. lia.
  - intros x y Hx Hy. apply Hrest. intros x' y' Hx' Hy'.
    pose proof (offset_nonneg (stride c) x y).
    rewrite Z2Nat.id by lia.
    pose proof (row_offsets_apart (stride c) (width c) x y x' y').
    lia.
  - exact Hrest.
Qed.

Lemma fill_pixels_and_padding_witness :
  exists st',
    fill 3 {| data := {| begin_ := element 1; size_ := 6 |};
              width := 2; height := 2; stride := 3 |} 7 [0; 1; 2; 3; 4; 5; 6]
    = Done (st', 2%nat) /\
    st' = [0; 7; 7; 3; 7; 7; 6].
Proof.
  destruct (fill_pixels_and_padding
    {| data := {| begin_ := element 1; size_ := 6 |};
       width := 2; height := 2; stride := 3 |} 7 [0; 1; 2; 3; 4; 5; 6] 1 3%nat)
    as (st' & Hrun & _).
  - unfold geometry_ok, is_unsigned. simpl. lia.
  - unfold canvas_at. simpl. split; [reflexivity | lia].
  - unfold inside. simpl. lia.
  - simpl. lia.
  - exists st'. split; [exact Hrun|].
    vm_compute in Hrun. congruence.
Defined.

(** *** Sub-views *)

Section SubcanvasFacts.
Context {Point : Type} (getxy : Point -> Z * Z).

Lemma subcanvas_view_same c (p1 p2 : Point) :
  getxy p1 = getxy p2 -> subcanvas_view getxy c p1 p2 = canvas_default.
Proof.
  intros Heq. unfold subcanvas_view. rewrite <- Heq.
  destruct (getxy p1) as [x y]. rewrite !Z.eqb_refl. reflexivity.
Qed.

(** The view of two distinct corners, after the two swaps. *)
Lemma subcanvas_view_distinct c (p1 p2 : Point) x1 y1 x2 y2 :
  getxy p1 = (x1, y1) -> getxy p2 = (x2, y2) ->
  (x1, y1) <> (x2, y2) ->
  subcanvas_view getxy c p1 p2
  = {| data :=
         span_range
           (subscript (data c)
              (u32 (u32 (Z.min y1 y2 * stride c) + Z.min x1 x2)))
           (ptr_add (subscript (data c) 0) (u32 (height c * stride c)));
       width := u32 (u32 (Z.max x1 x2 - Z.min x1 x2) + 1);
       height := u32 (u32 (Z.max y1 y2 - Z.min y1 y2) + 1);
       stride := stride c |}.
Proof.
  intros H1 H2 Hne. unfold subcanvas_view. rewrite H1, H2.
  destruct (Z.eqb_spec x1 x2) as [Hx|Hx], (Z.eqb_spec y1 y2) as [Hy|Hy];
    cbn [andb]; [congruence | | |];
    destruct (Z.gtb_spec x1 x2), (Z.gtb_spec y1 y2);
    repeat f_equal; lia.
Qed.
End SubcanvasFacts.

Lemma u32_add_idemp a b : u32 (u32 a + b) = u32 (a + b).
Proof. unfold u32. apply Zplus_mod_idemp_l. Qed.

(** C6.  For two points with the same extracted coordinates the view is the
    default canvas: width 0, height 0, an empty span on the null pointer; and
    [fill] on it ends at once and leaves the storage as it is. *)
Theorem subcanvas_view_same_point {Point A} (getxy : Point -> Z * Z)
    (c : canvas) (p1 p2 : Point) (v : A) (st : list A) (fuel : nat) :
  getxy p1 = getxy p2 ->
  (0 < fuel)%nat ->
  let view := subcanvas_view getxy c p1 p2 in
  view = canvas_default /\
  width view = 0 /\ height view = 0 /\
  begin_ (data view) = nullptr /\ size_ (data view) = 0 /\
  fill fuel view v st = Done (st, 0%nat).
Proof.
  intros Heq Hfuel view. subst view.
  rewrite (subcanvas_view_same getxy c p1 p2 Heq).
  repeat (split; [reflexivity|]).
  destruct fuel as [|fuel]; [lia | reflexivity].
Qed.

Lemma subcanvas_view_same_point_witness :
  fill 1 (subcanvas_view identity
            {| data := {| begin_ := element 0; size_ := 4 |};
               width := 2; height := 2; stride := 2 |} (1, 1) (1, 1))
       9 [5; 5; 5; 5]
  = Done ([5; 5; 5; 5], 0%nat).
Proof.
  refine (proj2 (proj2 (proj2 (proj2 (proj2
    (subcanvas_view_same_point identity
       {| data := {| begin_ := element 0; size_ := 4 |};
          width := 2; height := 2; stride := 2 |} (1, 1) (1, 1)
       9 [5; 5; 5; 5] 1%nat _ _)))))).
  - reflexivity.
  - lia.
Defined.

(** C1.  For corner points with distinct extracted coordinates (x1, y1) and
    (x2, y2), in either order, the view has width x2-x1+1 and height y2-y1+1
    taken after the swaps (so over the smaller and the larger coordinate),
    the stride of the parent, and a span that begins y1*stride + x1 elements
    after the parent's element 0.  The arithmetic is that of [unsigned]; the
    values are the exact ones whenever they are representable. *)
Theorem subcanvas_view_geometry {Point} (getxy : Point -> Z * Z)
    (c : canvas) (p1 p2 : Point) (x1 y1 x2 y2 : Z) :
  getxy p1 = (x1, y1) -> getxy p2 = (x2, y2) ->
  is_unsigned x1 -> is_unsigned y1 -> is_unsigned x2 -> is_unsigned y2 ->
  is_unsigned (stride c) ->
  (x1, y1) <> (x2, y2) ->
  let lx := Z.min x1 x2 in let hx := Z.max x1 x2 in
  let ly := Z.min y1 y2 in let hy := Z.max y1 y2 in
  let view := subcanvas_view getxy c p1 p2 in
  (width view = u32 (hx - lx + 1) /\
   height view = u32 (hy - ly + 1) /\
   stride view = stride c /\
   begin_ (data view) = ptr_add (begin_ (data c)) (u32 (ly * stride c + lx))) /\
  (hx - lx + 1 < 2 ^ 32 -> width view = hx - lx + 1) /\
  (hy - ly + 1 < 2 ^ 32 -> height view = hy - ly + 1) /\
  (ly * stride c + lx < 2 ^ 32 ->
   begin_ (data view) = ptr_add (begin_ (data c)) (ly * stride c + lx)).
Proof.
  intros H1 H2 Hx1 Hy1 Hx2 Hy2 HS Hne lx hx ly hy view.
  subst view. rewrite (subcanvas_view_distinct getxy c p1 p2 x1 y1 x2 y2 H1 H2 Hne).
  fold lx hx ly hy. cbn [width height stride data span_range begin_ subscript].
  rewrite !u32_add_idemp.
  unfold is_unsigned in *.
  split; [repeat split; reflexivity|].
  split; [|split]; intros Hfit; try (apply u32_small; unfold is_unsigned; lia).
  f_equal. apply u32_small. unfold is_unsigned.
  pose proof (offset_nonneg (stride c) lx ly). lia.
Qed.

Lemma subcanvas_view_geometry_witness :
  let parent := {| data := {| begin_ := element 0; size_ := 16 |};
                   width := 4; height := 4; stride := 4 |} in
  let view := subcanvas_view identity parent (2, 2) (1, 1) in
  width view = 2 /\ height view = 2 /\ stride view = 4 /\
  begin_ (data view) = element 5.
Proof.
  intros parent view.
  destruct (subcanvas_view_geometry identity parent (2, 2) (1, 1) 2 2 1 1)
    as ((_ & _ & HS & _) & HW & HH & HB);
    try reflexivity; try (unfold is_unsigned; simpl; lia); try discriminate.
  split; [apply HW; simpl; lia|].
  split; [apply HH; simpl; lia|].
  split; [exact HS|].
  apply HB. simpl. lia.
Defined.

Lemma offset_below_extent (S H x y : Z) :
  0 <= x < S -> 0 <= y < H -> y * S + x < H * S.
Proof.
  intros Hx Hy.
  assert ((y + 1) * S <= H * S) by (apply Z.mul_le_mono_nonneg_r; lia).
  lia.
Qed.

Lemma row_le (S y y' : Z) : 0 <= S -> y <= y' -> y * S <= y' * S.
Proof. intros. apply Z.mul_le_mono_nonneg_r; lia. Qed.

(** C2.  For a canvas that lies in its storage, with width <= stride and
    height * stride below 2^32, and corners (x1, y1), (x2, y2) with x1 < x2
    and y1 < y2 inside it, [fill v] on the view ends
    after y2-y1+1 rows, writes v to the parent pixels (x, y) with
    x1 <= x <= x2 and y1 <= y <= y2, and leaves every other element of the
    storage as it was. *)
Theorem subcanvas_view_fill {Point A} (getxy : Point -> Z * Z)
    (c : canvas) (p1 p2 : Point) (x1 y1 x2 y2 : Z)
    (v : A) (st : list A) (base : Z) (fuel : nat) :
  getxy p1 = (x1, y1) -> getxy p2 = (x2, y2) ->
  geometry_ok c -> canvas_at c base -> inside c base st ->
  0 <= x1 < x2 -> 0 <= y1 < y2 ->
  x2 < width c -> y2 < height c ->
  (Z.to_nat (y2 - y1 + 1) < fuel)%nat ->
  let view := subcanvas_view getxy c p1 p2 in
  exists st',
    fill fuel view v st = Done (st', Z.to_nat (y2 - y1 + 1)) /\
    length st' = length st /\
    (forall x y, x1 <= x <= x2 -> y1 <= y <= y2 ->
       st' !! Z.to_nat (base + y * stride c + x) = Some v) /\
    (forall j : nat,
       (forall x y, x1 <= x <= x2 -> y1 <= y <= y2 ->
          Z.of_nat j <> base + y * stride c + x) ->
       st' !! j = st !! j).
Proof.
  intros H1 H2 Hgeo [Hdata Hbase] Hin Hx Hy Hx2 Hy2 Hfuel view.
  pose proof Hgeo as (HW & HH & HS & HWS & Hext).
  unfold is_unsigned in HW, HH, HS.
  set (S := stride c) in *. set (W := width c) in *. set (H := height c) in *.
  (* the geometry of the view *)
  assert (Hview : view
    = {| data := span_range (element (base + (y1 * S + x1)))
                            (element (base + 0 + u32 (H * S)));
         width := x2 - x1 + 1; height := y2 - y1 + 1; stride := S |}).
  { subst view.
    rewrite (subcanvas_view_distinct getxy c p1 p2 x1 y1 x2 y2 H1 H2)
      by (intros [= -> ->]; lia).
    rewrite !Z.min_l, !Z.max_r by lia. rewrite !u32_add_idemp.
    unfold subscript. rewrite Hdata. cbn [ptr_add]. fold S H.
    pose proof (offset_below_extent S H x1 y1).
    pose proof (offset_nonneg S x1 y1).
    rewrite !u32_small by (unfold is_unsigned; lia). reflexivity. }
  assert (Hrow : forall k, 0 <= k < y2 - y1 + 1 -> row_start view k = k * S).
  { intros k Hk. rewrite Hview. unfold row_start. cbn [stride].
    apply u32_small. unfold is_unsigned.
    pose proof (offset_below_extent S H 0 k).
    pose proof (offset_nonneg S 0 k). lia. }
  pose proof (offset_nonneg S x1 y1) as Hoff.
  destruct (fill_run view v (base + (y1 * S + x1)) fuel st)
    as (st' & Hrun & Hlen & Hst').
  { rewrite Hview. cbn [height]. unfold is_unsigned. lia. }
  { rewrite Hview. cbn [width]. lia. }
  { rewrite Hview. reflexivity. }
  { lia. }
  { rewrite Hview. cbn [height]. exact Hfuel. }
  { intros k Hk. assert (Hk' : 0 <= k < y2 - y1 + 1) by (rewrite Hview in Hk; exact Hk).
    rewrite (Hrow k Hk'). rewrite Hview. cbn [width].
    pose proof (row_le S (y1 + k) (H - 1)).
    unfold inside in Hin. fold S W H in Hin. lia. }
  assert (Hh : height view = y2 - y1 + 1) by (rewrite Hview; reflexivity).
  assert (Hw : width view = x2 - x1 + 1) by (rewrite Hview; reflexivity).
  rewrite Hh in Hrun, Hst'.
  exists st'. split; [exact Hrun|]. split; [exact Hlen|].
  split.
  - intros x y Hxr Hyr.
    apply (Hst' _) with (y := y - y1); [lia|].
    unfold in_row. rewrite Hrow, Hw by lia.
    pose proof (offset_nonneg S x y).
    rewrite Z2Nat.id by lia. lia.
  - intros j Hj. apply (Hst' j). intros k Hk [Hlo Hhi].
    rewrite Hrow, Hw in * by lia.
    apply (Hj (Z.of_nat j - base - (y1 + k) * S) (y1 + k)); lia.
Qed.

Lemma subcanvas_view_fill_witness :
  exists st',
    fill 3 (subcanvas_view identity
              {| data := {| begin_ := element 0; size_ := 16 |};
                 width := 4; height := 4; stride := 4 |} (1, 1) (2, 2))
         9 [0; 0; 0; 0; 0; 0; 0; 0; 0; 0; 0; 0; 0; 0; 0; 0]
    = Done (st', 2%nat) /\
    st' = [0; 0; 0; 0; 0; 9; 9; 0; 0; 9; 9; 0; 0; 0; 0; 0].
Proof.
  destruct (subcanvas_view_fill identity
    {| data := {| begin_ := element 0; size_ := 16 |};
       width := 4; height := 4; stride := 4 |} (1, 1) (2, 2) 1 1 2 2
    9 [0; 0; 0; 0; 0; 0; 0; 0; 0; 0; 0; 0; 0; 0; 0; 0] 0 3%nat)
    as (st' & Hrun & _).
  - reflexivity.
  - reflexivity.
  - unfold geometry_ok, is_unsigned. simpl. lia.
  - unfold canvas_at. simpl. split; [reflexivity | lia].
  - unfold inside. simpl. lia.
  - lia.
  - lia.
  - simpl. lia.
  - simpl. lia.
  - simpl. lia.
  - exists st'. split; [exact Hrun|].
    vm_compute in Hrun. congruence.
Defined.

(** *** A canvas and a view of it end to end

    A 4x4 canvas filled with one colour, then the view of (1,1)-(2,2) filled
    with another: the border ring keeps the first colour, the inner 2x2
    block holds the second, and the saved file has 4*4*3 bytes after its
    header. *)
Example ring_and_block :
  let A := colors.gruvbox.bg in
  let B := colors.gruvbox.fg in
  let c := {| data := {| begin_ := element 0; size_ := 16 |};
              width := 4; height := 4; stride := 4 |} in
  exists st1 st2 out,
    fill 5 c A (replicate 16 0) = Done (st1, 4%nat) /\
    fill 5 (subcanvas_view identity c (1, 1) (2, 2)) B st1 = Done (st2, 2%nat) /\
    st2 = [A; A; A; A;  A; B; B; A;  A; B; B; A;  A; A; A; A] /\
    save_as_ppm c decode_rgb st2 = Some out /\
    String.length out = (String.length ("P6" ++ nl ++ "4 4" ++ nl ++ "255" ++ nl)%string
                         + 4 * 4 * 3)%nat.
Proof.
  intros A B c. eexists _, _, _.
  split; [vm_compute; reflexivity|].
  split; [vm_compute; reflexivity|].
  split; [reflexivity|].
  split; vm_compute; reflexivity.
Qed.

(** ** Where the 32-bit arithmetic wraps

    Canvases and vectors too large for [unsigned] offsets and arities; their
    storages are not written down but reasoned about. *)

Lemma zeros_length (n : Z) : 0 <= n -> Z.of_nat (length (zeros n)) = n.
Proof. intros Hn. unfold zeros. rewrite length_replicate. apply Z2Nat.id, Hn. Qed.

Lemma zeros_lookup (n : Z) (j : nat) :
  Z.of_nat j < n -> zeros n !! j = Some 0.
Proof.
  intros Hj. unfold zeros. apply lookup_replicate_2.
  apply Nat2Z.inj_lt. rewrite Z2Nat.id; lia.
Qed.

(** C3 as stated fails where [height * stride] passes 2^32: the cursor of
    row 2 wraps to 2. *)
Lemma fill_wraps_into_padding :
  let c := {| data := {| begin_ := element 0; size_ := 2 ^ 32 + 3 |};
              width := 1; height := 3; stride := 2 ^ 31 + 1 |} in
  let st := zeros (2 ^ 32 + 3) in
  width c <= stride c /\
  (height c - 1) * stride c + width c <= Z.of_nat (length st) /\
  exists st',
    fill 4 c 1 st = Done (st', 3%nat) /\
    st !! Z.to_nat (0 * stride c + 2) = Some 0 /\
    st' !! Z.to_nat (0 * stride c + 2) = Some 1 /\
    st' !! Z.to_nat (2 * stride c + 0) = Some 0.
Proof.
  intros c st.
  assert (Hlen : Z.of_nat (length st) = 2 ^ 32 + 3) by (apply zeros_length; lia).
  split; [cbn; lia|]. split; [rewrite Hlen; cbn; lia|].
  assert (Hrow : forall y, 0 <= y < 3 ->
             row_start c y = 0 \/ row_start c y = 2 ^ 31 + 1 \/ row_start c y = 2).
  { intros y Hy. assert (y = 0 \/ y = 1 \/ y = 2) as [-> | [-> | ->]] by lia;
      vm_compute; auto. }
  destruct (fill_run c 1 0 4 st) as (st' & Hrun & _ & Hst').
  - unfold is_unsigned. cbn. lia.
  - cbn. lia.
  - reflexivity.
  - lia.
  - cbn. lia.
  - intros y Hy. rewrite Hlen. change (width c) with 1.
    destruct (Hrow y Hy) as [-> | [-> | ->]]; lia.
  - exists st'. split; [exact Hrun|].
    change (Z.to_nat (0 * stride c + 2)) with 2%nat.
    change (2 * stride c + 0) with (2 ^ 32 + 2).
    split; [apply zeros_lookup; lia|]. split.
    + apply (proj1 (Hst' 2%nat) 2); [cbn; lia|].
      unfold in_row. change (row_start c 2) with 2. cbn. lia.
    + rewrite (proj2 (Hst' _)); [apply zeros_lookup; lia|].
      intros y Hy. unfold in_row. change (width c) with 1.
      rewrite Z2Nat.id by lia.
      destruct (Hrow y Hy) as [-> | [-> | ->]]; lia.
Qed.

(** C2 as stated fails where the parent's [height * stride] passes 2^32: the
    offset of the view wraps, the view begins at element 2, and the fill
    through it misses the rectangle and overwrites other cells. *)
Lemma view_fill_misses_rectangle :
  let parent := {| data := {| begin_ := element 0; size_ := 3 * (2 ^ 31 + 1) + 2 |};
                   width := 2; height := 4; stride := 2 ^ 31 + 1 |} in
  let st := zeros (3 * (2 ^ 31 + 1) + 2) in
  let view := subcanvas_view identity parent (0, 2) (1, 3) in
  (height parent - 1) * stride parent + width parent <= Z.of_nat (length st) /\
  begin_ (data view) = element 2 /\
  exists st',
    fill 3 view 1 st = Done (st', 2%nat) /\
    st' !! Z.to_nat (2 * stride parent + 0) = Some 0 /\
    st !! 2%nat = Some 0 /\
    st' !! 2%nat = Some 1 /\
    (forall x y, 0 <= x <= 1 -> 2 <= y <= 3 -> 2 <> y * stride parent + x).
Proof.
  intros parent st view.
  assert (Hlen : Z.of_nat (length st) = 3 * (2 ^ 31 + 1) + 2)
    by (apply zeros_length; lia).
  assert (Hview : view
    = {| data := {| begin_ := element 2; size_ := 2 |};
         width := 2; height := 2; stride := 2 ^ 31 + 1 |})
    by (vm_compute; reflexivity).
  split; [rewrite Hlen; cbn; lia|].
  split; [rewrite Hview; reflexivity|].
  rewrite Hview. clear Hview view.
  set (view := {| data := _; width := 2; height := 2; stride := _ |}).
  assert (Hrow : forall y, 0 <= y < 2 ->
             row_start view y = 0 \/ row_start view y = 2 ^ 31 + 1).
  { intros y Hy. assert (y = 0 \/ y = 1) as [-> | ->] by lia; vm_compute; auto. }
  destruct (fill_run view 1 2 3 st) as (st' & Hrun & _ & Hst').
  - unfold is_unsigned. cbn. lia.
  - cbn. lia.
  - reflexivity.
  - lia.
  - cbn. lia.
  - intros y Hy. rewrite Hlen. change (width view) with 2.
    destruct (Hrow y Hy) as [-> | ->]; lia.
  - exists st'. split; [exact Hrun|].
    change (2 * stride parent + 0) with (2 ^ 32 + 2).
    split; [|split; [apply zeros_lookup; lia|split]].
    + rewrite (proj2 (Hst' _)); [apply zeros_lookup; lia|].
      intros y Hy. unfold in_row. change (width view) with 2.
      rewrite Z2Nat.id by lia.
      destruct (Hrow y Hy) as [-> | ->]; lia.
    + apply (proj1 (Hst' 2%nat) 0); [cbn; lia|].
      unfold in_row. change (row_start view 0) with 0. cbn. lia.
    + intros x y Hx Hy. change (stride parent) with (2 ^ 31 + 1). lia.
Qed.

(** C1 as stated fails where [y1 * stride + x1] passes 2^32: the view begins
    at the wrapped offset. *)
Lemma view_offset_wraps :
  let parent := {| data := {| begin_ := element 0; size_ := 65537 * 65536 |};
                   width := 65536; height := 65537; stride := 65536 |} in
  let view := subcanvas_view identity parent (0, 65536) (1, 65536) in
  begin_ (data view) = element 0 /\
  begin_ (data view)
  <> ptr_add (begin_ (data parent)) (65536 * stride parent + 0).
Proof.
  intros parent view. split; [reflexivity|].
  vm_compute. discriminate.
Qed.

(** C5 as stated fails for an arity that does not fit an [unsigned]: a vector
    of 2^32 + 2 elements and a scalar give a result of 2 elements. *)
Lemma arity_narrowed_to_two :
  let lhs := math.vector_of (zeros (2 ^ 32 + 2)) in
  let rhs := math.scalar_of 1 in
  math.tuple_size lhs = 2 ^ 32 + 2 /\
  math.vector_min_size lhs rhs = 2 /\
  exists r,
    math.reduce math.unsigned_call math.plus lhs rhs = Some r /\
    Z.of_nat (length r) = 2.
Proof.
  intros lhs rhs.
  assert (Hsize : math.tuple_size lhs = 2 ^ 32 + 2).
  { unfold lhs. cbn [math.tuple_size]. apply zeros_length. lia. }
  assert (HN : math.vector_min_size lhs rhs = 2).
  { unfold math.vector_min_size. rewrite Hsize. reflexivity. }
  split; [exact Hsize|]. split; [exact HN|].
  destruct (reduce_total math.unsigned_call math.plus lhs rhs) as [r Hr].
  - reflexivity.
  - rewrite HN. lia.
  - exists r. split; [exact Hr|].
    apply reduce_Some in Hr as (_ & _ & Hlen & _). congruence.
Qed.

(** * Further properties *)

(** ** Vector arithmetic in closed form *)

Section ReduceClosed.
Context {L R T : Type} (call : math.binary_operator -> L -> R -> T).
Import math.

Lemma reduce_map_l op (l : list L) (s : R) :
  (0 < length l)%nat -> Z.of_nat (length l) < 2 ^ 32 ->
  reduce call op (vector_of l) (scalar_of s)
  = Some (map (fun a => call op a s) l).
Proof.
  intros Hpos Hlt. apply reduce_Some.
  rewrite (vector_min_size_spec (vector_of l) (scalar_of s) (length l)) by done.
  split; [done|]. split; [lia|]. split; [by rewrite length_map|].
  intros i Hi. unfold expansion. cbn [element_i].
  change (map (fun a => call op a s) l) with ((fun a => call op a s) <$> l).
  rewrite list_lookup_fmap. by destruct (l !! i).
Qed.

Lemma reduce_map_r op (s : L) (r : list R) :
  (0 < length r)%nat -> Z.of_nat (length r) < 2 ^ 32 ->
  reduce call op (scalar_of s) (vector_of r)
  = Some (map (fun b => call op s b) r).
Proof.
  intros Hpos Hlt. apply reduce_Some.
  rewrite (vector_min_size_spec (scalar_of s) (vector_of r) (length r)) by done.
  split; [done|]. split; [lia|]. split; [by rewrite length_map|].
  intros i Hi. unfold expansion. cbn [element_i mbind option_bind].
  change (map (fun b => call op s b) r) with ((fun b => call op s b) <$> r).
  rewrite list_lookup_fmap. by destruct (r !! i).
Qed.

Lemma reduce_zip op (l : list L) (r : list R) :
  (0 < Nat.min (length l) (length r))%nat ->
  Z.of_nat (Nat.min (length l) (length r)) < 2 ^ 32 ->
  reduce call op (vector_of l) (vector_of r) = Some (zip_with (call op) l r).
Proof.
  intros Hpos Hlt. apply reduce_Some.
  rewrite (vector_min_size_spec (vector_of l) (vector_of r)
             (Nat.min (length l) (length r))) by done.
  split; [done|]. split; [lia|]. split; [by rewrite length_zip_with|].
  intros i Hi. unfold expansion. cbn [element_i].
  rewrite lookup_zip_with. reflexivity.
Qed.

(** A result read with the operands exchanged. *)
Lemma reduce_Some_swap op lhs rhs (r : list T) :
  reduce call op lhs rhs = Some r ->
  reduce (fun o b a => call o a b) op rhs lhs = Some r.
Proof.
  intros Hr. apply reduce_Some in Hr as (Hv & Hpos & Hlen & Hel).
  assert (HN : vector_min_size rhs lhs = vector_min_size lhs rhs).
  { unfold vector_min_size. by rewrite Z.min_comm. }
  apply reduce_Some. rewrite HN.
  split; [by rewrite orb_comm|]. split; [done|]. split; [done|].
  intros i Hi. rewrite (Hel i Hi). unfold expansion.
  by destruct (element_i lhs i), (element_i rhs i).
Qed.
End ReduceClosed.

Lemma reduce_swap {L R T} (call : math.binary_operator -> L -> R -> T) op lhs rhs :
  math.reduce call op lhs rhs
  = math.reduce (fun o b a => call o a b) op rhs lhs.
Proof.
  destruct (math.reduce call op lhs rhs) as [r|] eqn:Hr.
  - symmetry. by apply reduce_Some_swap.
  - destruct (math.reduce (fun o b a => call o a b) op rhs lhs) as [r|] eqn:Hr';
      [|done].
    apply reduce_Some_swap in Hr'. cbn in Hr'.
    rewrite <- Hr, <- Hr'. reflexivity.
Qed.

(** [reduce] sees the functor only through its values. *)
Lemma reduce_ext {L R T} (call call' : math.binary_operator -> L -> R -> T)
    op lhs rhs :
  (forall a b, call op a b = call' op a b) ->
  math.reduce call op lhs rhs = math.reduce call' op lhs rhs.
Proof.
  intros Hext.
  assert (Hone : forall c c' : math.binary_operator -> L -> R -> T,
             (forall a b, c op a b = c' op a b) ->
             forall r, math.reduce c op lhs rhs = Some r ->
                       math.reduce c' op lhs rhs = Some r).
  { intros c c' Hcc r Hr. apply reduce_Some in Hr as (Hv & Hpos & Hlen & Hel).
    apply reduce_Some. repeat (split; [done|]).
    intros i Hi. rewrite (Hel i Hi). unfold math.expansion.
    destruct (math.element_i lhs i), (math.element_i rhs i); cbn; try done.
    by rewrite Hcc. }
  destruct (math.reduce call op lhs rhs) as [r|] eqn:Hr.
  - symmetry. by apply (Hone call call').
  - destruct (math.reduce call' op lhs rhs) as [r|] eqn:Hr'; [|done].
    apply (Hone call' call) in Hr'; [congruence | by intros; symmetry].
Qed.

(** X1.  [reduce] in closed form, for arities that are positive and fit an
    [unsigned]: a vector with a scalar is the map of the operator over the
    vector (on either side), and two vectors give the element-wise
    combination cut to the shorter one. *)
Theorem reduce_closed_form {L R T} (call : math.binary_operator -> L -> R -> T)
    (op : math.binary_operator) (l : list L) (r : list R) (a : L) (b : R) :
  (0 < length l)%nat -> Z.of_nat (length l) < 2 ^ 32 ->
  (0 < length r)%nat -> Z.of_nat (length r) < 2 ^ 32 ->
  math.reduce call op (math.vector_of l) (math.scalar_of b)
  = Some (map (fun x => call op x b) l) /\
  math.reduce call op (math.scalar_of a) (math.vector_of r)
  = Some (map (fun y => call op a y) r) /\
  math.reduce call op (math.vector_of l) (math.vector_of r)
  = Some (zip_with (call op) l r).
Proof.
  intros Hl Hl' Hr Hr'.
  split; [by apply reduce_map_l|]. split; [by apply reduce_map_r|].
  apply reduce_zip; lia.
Qed.

Lemma reduce_closed_form_witness :
  math.reduce math.unsigned_call math.minus
    (math.vector_of [10; 20; 30]) (math.vector_of [1; 2])
  = Some [9; 18].
Proof.
  refine (proj2 (proj2 (reduce_closed_form math.unsigned_call math.minus
                          [10; 20; 30] [1; 2] 0 0 _ _ _ _))); simpl; lia.
Defined.

(** X2.  Addition and multiplication of [unsigned] operands do not depend on
    the order of the operands, whatever mix of vectors and scalars they are
    (also where no result exists). *)
Theorem reduce_unsigned_commutes (op : math.binary_operator)
    (lhs rhs : math.operand Z) :
  op = math.plus \/ op = math.multiplies ->
  math.reduce math.unsigned_call op lhs rhs
  = math.reduce math.unsigned_call op rhs lhs.
Proof.
  intros Hop. rewrite reduce_swap. apply reduce_ext.
  intros a b. destruct Hop as [-> | ->]; cbn; f_equal; lia.
Qed.

Lemma reduce_unsigned_commutes_witness :
  math.reduce math.unsigned_call math.multiplies
    (math.scalar_of 40) (math.vector_of [3; 7])
  = math.reduce math.unsigned_call math.multiplies
      (math.vector_of [3; 7]) (math.scalar_of 40).
Proof.
  apply (reduce_unsigned_commutes math.multiplies). right. reflexivity.
Defined.

(** X3.  The stored [N] is the minimum arity among the vector operands
    reduced modulo 2^32 (it is computed in [std::size_t] and kept in an
    [unsigned]), and that is the arity of every result.  So an arity of
    2^32 + k is treated as k. *)
Theorem reduce_arity_narrowed {L R T} (call : math.binary_operator -> L -> R -> T)
    (op : math.binary_operator) (lhs : math.operand L) (rhs : math.operand R)
    (n : nat) :
  math.spec_min_arity lhs rhs = Some n ->
  Z.of_nat n <= size_max ->
  math.vector_min_size lhs rhs = Z.of_nat n mod 2 ^ 32 /\
  forall r, math.reduce call op lhs rhs = Some r ->
            Z.of_nat (length r) = Z.of_nat n mod 2 ^ 32.
Proof.
  intros Hn Hmax.
  assert (HN : math.vector_min_size lhs rhs = Z.of_nat n mod 2 ^ 32).
  { unfold math.vector_min_size, u32. f_equal.
    destruct lhs as [l|s], rhs as [r|s']; cbn in Hn; simplify_eq;
      cbn [math.tuple_size]; lia. }
  split; [exact HN|].
  intros r Hr. apply reduce_Some in Hr as (_ & _ & Hlen & _). congruence.
Qed.

Lemma reduce_arity_narrowed_witness :
  math.vector_min_size (math.vector_of [1; 2; 3]) (math.scalar_of 5)
  = 3 mod 2 ^ 32.
Proof.
  refine (proj1 (reduce_arity_narrowed math.unsigned_call math.plus
                   (math.vector_of [1; 2; 3]) (math.scalar_of 5) 3%nat _ _)).
  - reflexivity.
  - unfold size_max. simpl. lia.
Defined.

(** X5.  On [unsigned] elements multiplication distributes over the addition
    of a scalar, wrap-around included: (v + a) * c and v * c + a * c are the
    same vector.  With a = 1 this is how the second corner of a cell in
    [main] relates to the first: it lies Cell further along each axis. *)
Theorem reduce_add_then_scale (v : list Z) (a c : Z) :
  (0 < length v)%nat -> Z.of_nat (length v) < 2 ^ 32 ->
  (q ← math.reduce math.unsigned_call math.plus
         (math.vector_of v) (math.scalar_of a);
   math.reduce math.unsigned_call math.multiplies
     (math.vector_of q) (math.scalar_of c))
  = (p ← math.reduce math.unsigned_call math.multiplies
           (math.vector_of v) (math.scalar_of c);
     math.reduce math.unsigned_call math.plus
       (math.vector_of p) (math.scalar_of (u32 (a * c)))).
Proof.
  intros Hpos Hlt.
  rewrite !reduce_map_l by done. cbn [mbind option_bind].
  rewrite !reduce_map_l by (rewrite length_map; done).
  f_equal. rewrite !map_map. apply map_ext. intros x. cbn. unfold u32.
  rewrite Zmult_mod_idemp_l, Zplus_mod_idemp_l, Zplus_mod_idemp_r.
  f_equal. lia.
Qed.

Lemma reduce_add_then_scale_witness :
  (q ← math.reduce math.unsigned_call math.plus
         (math.vector_of [3; 7]) (math.scalar_of 1);
   math.reduce math.unsigned_call math.multiplies
     (math.vector_of q) (math.scalar_of 40))
  = Some [160; 320].
Proof.
  refine (eq_trans (reduce_add_then_scale [3; 7] 1 40 _ _) _).
  - simpl. lia.
  - simpl. lia.
  - reflexivity.
Defined.

(** ** Packed colours, the other way round *)

Lemma decode_rgb_is_byte color :
  0 <= color ->
  let '(r, g, b) := decode_rgb color in is_byte r /\ is_byte g /\ is_byte b.
Proof.
  intros Hc. rewrite decode_rgb_bytes by exact Hc. unfold is_byte.
  repeat split; apply Z.mod_pos_bound; lia.
Qed.

(** X6.  Decoding a 32-bit colour and encoding the channels again keeps the
    low 24 bits and sets the top byte to FF; it gives the colour back exactly
    when its top byte already is FF, as for every constant of [colors]. *)
Theorem encode_decode_top_byte (color : Z) :
  is_unsigned color ->
  let '(r, g, b) := decode_rgb color in
  encode_rgb r g b = color mod 2 ^ 24 + 0xff000000 /\
  (encode_rgb r g b = color <-> 0xff000000 <= color).
Proof.
  intros [Hlo Hhi].
  pose proof (decode_rgb_is_byte color Hlo) as Hb.
  rewrite decode_rgb_bytes in Hb |- * by exact Hlo.
  destruct Hb as (Hr & Hg & Hb).
  rewrite encode_rgb_value by assumption.
  assert (Hsum : color mod 2 ^ 8 + 2 ^ 8 * ((color / 2 ^ 8) mod 2 ^ 8)
                 + 2 ^ 16 * ((color / 2 ^ 16) mod 2 ^ 8) = color mod 2 ^ 24)
    by (Z.div_mod_to_equations; lia).
  rewrite Hsum. split; [reflexivity|].
  split; intros H; Z.div_mod_to_equations; lia.
Qed.

Lemma encode_decode_top_byte_witness :
  let '(r, g, b) := decode_rgb colors.gruvbox.fg in
  encode_rgb r g b = colors.gruvbox.fg.
Proof.
  pose proof (encode_decode_top_byte colors.gruvbox.fg) as H.
  destruct (decode_rgb colors.gruvbox.fg) as [[r g] b].
  apply H.
  - unfold is_unsigned, colors.gruvbox.fg. lia.
  - unfold colors.gruvbox.fg. lia.
Defined.

(** X7.  Every encoded colour is a 32-bit value whose top byte is FF, and
    different channel triples are encoded differently. *)
Theorem encode_rgb_range_injective (r g b r' g' b' : Z) :
  is_byte r -> is_byte g -> is_byte b ->
  is_byte r' -> is_byte g' -> is_byte b' ->
  (0xff000000 <= encode_rgb r g b < 2 ^ 32) /\
  encode_rgb r g b / 2 ^ 24 = 0xFF /\
  (encode_rgb r g b = encode_rgb r' g' b' -> (r, g, b) = (r', g', b')).
Proof.
  intros Hr Hg Hb Hr' Hg' Hb'.
  rewrite !encode_rgb_value by assumption. unfold is_byte in *.
  split; [lia|]. split; [Z.div_mod_to_equations; lia|].
  intros Heq. repeat f_equal; lia.
Qed.

Lemma encode_rgb_range_injective_witness :
  0xff000000 <= colors.blue < 2 ^ 32 /\ colors.blue / 2 ^ 24 = 0xFF.
Proof.
  destruct (encode_rgb_range_injective 0 0 255 0 0 255) as (H1 & H2 & _);
    try (unfold is_byte; lia).
  split; [exact H1 | exact H2].
Defined.

(** ** Repeated fills and edge cases *)

Section FillEdges.
Context {A : Type}.
Implicit Types (st : list A) (v : A) (c : canvas).

(** Whether a storage index lies in one of the first [m] rows can be
    decided. *)
Lemma in_rows_dec c (base : Z) (j : nat) (m : nat) :
  (exists y, 0 <= y < Z.of_nat m /\ in_row c base y j) \/
  (forall y, 0 <= y < Z.of_nat m -> ~ in_row c base y j).
Proof.
  induction m as [|m [(y & Hy & Hj)|Hno]].
  - right. intros y Hy. lia.
  - left. exists y. split; [lia | done].
  - unfold in_row in *.
    destruct (decide (base + row_start c (Z.of_nat m) <= Z.of_nat j
                      < base + row_start c (Z.of_nat m) + width c)) as [Hj|Hj].
    + left. exists (Z.of_nat m). split; [lia | done].
    + right. intros y Hy. destruct (decide (y = Z.of_nat m)) as [->|Hne];
        [done | apply Hno; lia].
Qed.
End FillEdges.

(** X9.  Of two fills of the same canvas only the last one shows: filling
    with v and then with w leaves the storage that filling with w alone
    leaves, and filling with v a second time changes nothing. *)
Theorem fill_last_write_wins {A} (c : canvas) (v w : A) (st : list A)
    (base : Z) (fuel : nat) :
  is_unsigned (height c) -> 0 <= width c ->
  begin_ (data c) = element base -> 0 <= base ->
  (Z.to_nat (height c) < fuel)%nat ->
  rows_inside c base st ->
  exists st1 st2,
    fill fuel c v st = Done (st1, Z.to_nat (height c)) /\
    fill fuel c w st1 = Done (st2, Z.to_nat (height c)) /\
    fill fuel c w st = Done (st2, Z.to_nat (height c)) /\
    fill fuel c v st1 = Done (st1, Z.to_nat (height c)).
Proof.
  intros HH HW Hdata Hbase Hfuel Hin. pose proof HH as [Hlo Hhi].
  destruct (fill_run c v base fuel st) as (st1 & Hrun1 & Hlen1 & Hst1); try done.
  assert (Hin1 : rows_inside c base st1).
  { intros y Hy. rewrite Hlen1. by apply Hin. }
  destruct (fill_run c w base fuel st1) as (st2 & Hrun2 & Hlen2 & Hst2); try done.
  destruct (fill_run c w base fuel st) as (st2' & Hrun2' & Hlen2' & Hst2'); try done.
  destruct (fill_run c v base fuel st1) as (st1' & Hrun1' & Hlen1' & Hst1'); try done.
  assert (Hrows : forall j : nat,
             (exists y, 0 <= y < height c /\ in_row c base y j) \/
             (forall y, 0 <= y < height c -> ~ in_row c base y j)).
  { intros j. pose proof (in_rows_dec c base j (Z.to_nat (height c))) as Hd.
    rewrite Z2Nat.id in Hd by lia. exact Hd. }
  assert (st2' = st2) as ->.
  { apply list_eq. intros j. destruct (Hrows j) as [(y & Hy & Hj)|Hno].
    - rewrite (proj1 (Hst2 j) y Hy Hj), (proj1 (Hst2' j) y Hy Hj). done.
    - rewrite (proj2 (Hst2 j) Hno), (proj2 (Hst2' j) Hno), (proj2 (Hst1 j) Hno).
      done. }
  assert (st1' = st1) as ->.
  { apply list_eq. intros j. destruct (Hrows j) as [(y & Hy & Hj)|Hno].
    - rewrite (proj1 (Hst1 j) y Hy Hj), (proj1 (Hst1' j) y Hy Hj). done.
    - apply (proj2 (Hst1' j) Hno). }
  by exists st1, st2.
Qed.

Lemma fill_last_write_wins_witness :
  exists st1 st2,
    fill 3 {| data := {| begin_ := element 0; size_ := 6 |};
              width := 2; height := 2; stride := 3 |} 7 [0; 1; 2; 3; 4; 5]
    = Done (st1, 2%nat) /\
    fill 3 {| data := {| begin_ := element 0; size_ := 6 |};
              width := 2; height := 2; stride := 3 |} 9 st1
    = Done (st2, 2%nat) /\
    st2 = [9; 9; 2; 9; 9; 5].
Proof.
  destruct (fill_last_write_wins
    {| data := {| begin_ := element 0; size_ := 6 |};
       width := 2; height := 2; stride := 3 |} 7 9 [0; 1; 2; 3; 4; 5] 0 3%nat)
    as (st1 & st2 & H1 & H2 & H3 & _).
  - unfold is_unsigned. simpl. lia.
  - simpl. lia.
  - reflexivity.
  - lia.
  - simpl. lia.
  - intros y Hy. simpl in Hy. assert (y = 0 \/ y = 1) as [-> | ->] by lia;
      vm_compute; discriminate.
  - exists st1, st2. split; [exact H1|]. split; [exact H2|].
    vm_compute in H3. congruence.
Defined.

(** X10.  A canvas of width 0 has nothing to write: [fill] runs through its
    [height] rows and returns the storage untouched, wherever the rows would
    lie and even without backing storage. *)
Theorem fill_width_zero {A} (c : canvas) (v : A) (st : list A) (fuel : nat) :
  is_unsigned (height c) -> width c = 0 ->
  (Z.to_nat (height c) < fuel)%nat ->
  fill fuel c v st = Done (st, Z.to_nat (height c)).
Proof.
  intros HH HW Hfuel. pose proof HH as [Hlo Hhi].
  assert (Hloop : forall (m : nat) fuel' cursor rows,
             Z.of_nat m <= height c -> (m < fuel')%nat ->
             fill_rows fuel' c v cursor (Z.of_nat m) st rows
             = Done (st, (rows + m)%nat)).
  { induction m as [|m IH]; intros fuel' cursor rows Hm Hf;
      (destruct fuel' as [|fuel']; [lia|]); cbn [fill_rows].
    - change (u32 (Z.of_nat 0 - 1)) with (2 ^ 32 - 1).
      destruct (Z.ltb_spec (2 ^ 32 - 1) (height c)); [lia|].
      by rewrite Nat.add_0_r.
    - replace (u32 (Z.of_nat (S m) - 1)) with (Z.of_nat m)
        by (unfold u32; rewrite Z.mod_small; lia).
      destruct (Z.ltb_spec (Z.of_nat m) (height c)); [|lia].
      rewrite HW. change (Z.to_nat 0) with 0%nat. cbn [std_fill].
      rewrite IH by lia. do 2 f_equal. lia. }
  unfold fill. specialize (Hloop (Z.to_nat (height c)) fuel 0 0%nat).
  rewrite Z2Nat.id in Hloop by lia. apply Hloop; lia.
Qed.

Lemma fill_width_zero_witness :
  fill 4 {| data := span_default; width := 0; height := 3; stride := 5 |}
       7 [1; 2]
  = Done ([1; 2], 3%nat).
Proof.
  apply (fill_width_zero
    {| data := span_default; width := 0; height := 3; stride := 5 |} 7 [1; 2] 4).
  - unfold is_unsigned. simpl. lia.
  - reflexivity.
  - simpl. lia.
Defined.

(** X11.  A canvas without backing storage (the null span of the default
    canvas) cannot be written to: as soon as it has a row and a column,
    [fill] faults in its first row.  The default canvas is safe to fill only
    because its height is 0. *)
Theorem fill_null_data_faults {A} (c : canvas) (v : A) (st : list A) (fuel : nat) :
  begin_ (data c) = nullptr ->
  is_unsigned (height c) -> 0 < height c -> 0 < width c ->
  (0 < fuel)%nat ->
  fill fuel c v st = Fault.
Proof.
  intros Hdata [Hlo Hhi] HH HW Hfuel.
  destruct fuel as [|fuel]; [lia|]. unfold fill. cbn [fill_rows].
  replace (u32 (height c - 1)) with (height c - 1)
    by (unfold u32; rewrite Z.mod_small; lia).
  destruct (Z.ltb_spec (height c - 1) (height c)); [|lia].
  unfold subscript. rewrite Hdata. cbn [ptr_add].
  destruct (Z.to_nat (width c)) as [|n] eqn:Hn; [lia|]. reflexivity.
Qed.

Lemma fill_null_data_faults_witness :
  fill 1 {| data := span_default; width := 1; height := 1; stride := 1 |}
       7 [1; 2]
  = Fault.
Proof.
  apply (fill_null_data_faults
    {| data := span_default; width := 1; height := 1; stride := 1 |} 7 [1; 2] 1).
  - reflexivity.
  - unfold is_unsigned. simpl. lia.
  - simpl. lia.
  - simpl. lia.
  - lia.
Defined.

(** ** More on sub-views *)

Section ViewFacts.
Context {Point : Type} (getxy : Point -> Z * Z).

(** The view of a rectangle whose corners are in order and whose offsets do
    not wrap. *)
Lemma view_of_rectangle c (base : Z) (p1 p2 : Point) x1 y1 x2 y2 :
  getxy p1 = (x1, y1) -> getxy p2 = (x2, y2) ->
  begin_ (data c) = element base ->
  is_unsigned (height c) -> is_unsigned (stride c) ->
  height c * stride c < 2 ^ 32 ->
  0 <= x1 <= x2 -> x2 < stride c -> 0 <= y1 <= y2 -> y2 < height c ->
  (x1, y1) <> (x2, y2) ->
  subcanvas_view getxy c p1 p2
  = {| data := {| begin_ := element (base + (y1 * stride c + x1));
                  size_ := height c * stride c - (y1 * stride c + x1) |};
       width := x2 - x1 + 1; height := y2 - y1 + 1; stride := stride c |}.
Proof.
  intros H1 H2 Hdata [HH0 HH1] [HS0 HS1] Hext Hx Hx2 Hy Hy2 Hne.
  rewrite (subcanvas_view_distinct getxy c p1 p2 x1 y1 x2 y2 H1 H2 Hne).
  rewrite !Z.min_l, !Z.max_r by lia. rewrite !u32_add_idemp.
  unfold subscript, span_range. rewrite Hdata. cbn [ptr_add ptr_diff].
  pose proof (offset_below_extent (stride c) (height c) x1 y1).
  pose proof (offset_nonneg (stride c) x1 y1).
  rewrite !u32_small by (unfold is_unsigned; nia).
  f_equal. f_equal. lia.
Qed.
End ViewFacts.

(** [fill] reads the geometry and the first element of the data, not the
    size of the span. *)
Lemma fill_rows_same_geometry {A} (c c' : canvas) (v : A) (fuel : nat) :
  begin_ (data c) = begin_ (data c') -> width c = width c' ->
  height c = height c' -> stride c = stride c' ->
  forall cursor h (st : list A) rows,
    fill_rows fuel c v cursor h st rows = fill_rows fuel c' v cursor h st rows.
Proof.
  intros Hd HW HH HS.
  induction fuel as [|fuel IH]; intros cursor h st rows; cbn [fill_rows];
    [done|].
  unfold subscript. rewrite Hd, HW, HH, HS.
  destruct (u32 (h - 1) <? height c'); [|done].
  destruct (std_fill st _ _ v); [apply IH | done].
Qed.

(** X12.  The view depends on the two coordinate pairs only through their
    minima and maxima: the corners may come in either order, and the corners
    of the other diagonal of the same rectangle give the same view. *)
Theorem subcanvas_view_corner_order {Point} (getxy : Point -> Z * Z)
    (c : canvas) (p1 p2 q1 q2 : Point) (x1 y1 x2 y2 : Z) :
  getxy p1 = (x1, y1) -> getxy p2 = (x2, y2) ->
  getxy q1 = (x1, y2) -> getxy q2 = (x2, y1) ->
  subcanvas_view getxy c p2 p1 = subcanvas_view getxy c p1 p2 /\
  subcanvas_view getxy c q1 q2 = subcanvas_view getxy c p1 p2 /\
  subcanvas_view getxy c q2 q1 = subcanvas_view getxy c p1 p2.
Proof.
  intros H1 H2 G1 G2.
  destruct (decide ((x1, y1) = (x2, y2))) as [[= -> ->]|Hne].
  - rewrite !subcanvas_view_same by congruence. done.
  - rewrite (subcanvas_view_distinct getxy c p1 p2 x1 y1 x2 y2) by done.
    rewrite (subcanvas_view_distinct getxy c p2 p1 x2 y2 x1 y1) by congruence.
    rewrite (subcanvas_view_distinct getxy c q1 q2 x1 y2 x2 y1) by congruence.
    rewrite (subcanvas_view_distinct getxy c q2 q1 x2 y1 x1 y2) by congruence.
    rewrite (Z.min_comm x2 x1), (Z.max_comm x2 x1),
            (Z.min_comm y2 y1), (Z.max_comm y2 y1). done.
Qed.

Lemma subcanvas_view_corner_order_witness :
  let parent := {| data := {| begin_ := element 0; size_ := 16 |};
                   width := 4; height := 4; stride := 4 |} in
  subcanvas_view identity parent (1, 3) (2, 1)
  = subcanvas_view identity parent (1, 1) (2, 3).
Proof.
  intros parent.
  refine (proj1 (proj2 (subcanvas_view_corner_order identity parent
                          (1, 1) (2, 3) (1, 3) (2, 1) 1 1 2 3 _ _ _ _)));
    reflexivity.
Defined.



(** [fill] through the view of a rectangle given by ordered corners, where
    the rectangle may reach into the padding columns of the parent. *)
Lemma view_fill_cells {Point A} (getxy : Point -> Z * Z)
    (c : canvas) (p1 p2 : Point) (x1 y1 x2 y2 : Z)
    (v : A) (st : list A) (base : Z) (fuel : nat) :
  getxy p1 = (x1, y1) -> getxy p2 = (x2, y2) ->
  begin_ (data c) = element base -> 0 <= base ->
  is_unsigned (height c) -> is_unsigned (stride c) ->
  height c * stride c < 2 ^ 32 ->
  0 <= x1 <= x2 -> x2 < stride c -> 0 <= y1 <= y2 -> y2 < height c ->
  (x1, y1) <> (x2, y2) ->
  base + y2 * stride c + x2 < Z.of_nat (length st) ->
  (Z.to_nat (y2 - y1 + 1) < fuel)%nat ->
  exists st',
    fill fuel (subcanvas_view getxy c p1 p2) v st
    = Done (st', Z.to_nat (y2 - y1 + 1)) /\
    length st' = length st /\
    (forall x y, x1 <= x <= x2 -> y1 <= y <= y2 ->
       st' !! Z.to_nat (base + y * stride c + x) = Some v) /\
    (forall j : nat,
       (forall x y, x1 <= x <= x2 -> y1 <= y <= y2 ->
          Z.of_nat j <> base + y * stride c + x) ->
       st' !! j = st !! j).
Proof.
  intros H1 H2 Hdata Hbase HH HS Hext Hx Hx2 Hy Hy2 Hne Hin Hfuel.
  rewrite (view_of_rectangle getxy c base p1 p2 x1 y1 x2 y2) by done.
  destruct HH as [HH0 HH1], HS as [HS0 HS1].
  set (S := stride c) in *. set (H := height c) in *.
  set (view := {| data := _; width := _; height := _; stride := _ |}).
  assert (Hrow : forall k, 0 <= k < y2 - y1 + 1 -> row_start view k = k * S).
  { intros k Hk. unfold row_start. cbn [stride view].
    apply u32_small. unfold is_unsigned.
    pose proof (offset_below_extent S H 0 k).
    pose proof (offset_nonneg S 0 k). lia. }
  pose proof (offset_nonneg S x1 y1) as Hoff.
  destruct (fill_run view v (base + (y1 * S + x1)) fuel st)
    as (st' & Hrun & Hlen & Hst').
  { cbn [height view]. unfold is_unsigned. lia. }
  { cbn [width view]. lia. }
  { reflexivity. }
  { lia. }
  { exact Hfuel. }
  { intros k Hk. cbn [height view] in Hk. rewrite (Hrow k Hk).
    cbn [width view]. pose proof (row_le S (y1 + k) y2). lia. }
  cbn [height view] in Hrun, Hst'.
  exists st'. split; [exact Hrun|]. split; [exact Hlen|].
  split.
  - intros x y Hxr Hyr.
    apply (Hst' _) with (y := y - y1); [lia|].
    unfold in_row. rewrite Hrow by lia. cbn [width view].
    pose proof (offset_nonneg S x y).
    rewrite Z2Nat.id by lia. lia.
  - intros j Hj. apply (Hst' j). intros k Hk [Hlo Hhi].
    rewrite Hrow in * by lia. cbn [width view] in Hhi.
    apply (Hj (Z.of_nat j - base - (y1 + k) * S) (y1 + k)); lia.
Qed.

(** X14.  On a parent whose extent height * stride is below 2^32, and for a
    rectangle with ordered corners below the parent's stride and height,
    the span of the view ends where the parent's extent ends, and every
    index that [fill] uses on the view (row k, column j) is an index of that
    span. *)
Theorem subcanvas_view_span_covers {Point} (getxy : Point -> Z * Z)
    (c : canvas) (base : Z) (p1 p2 : Point) (x1 y1 x2 y2 : Z) :
  getxy p1 = (x1, y1) -> getxy p2 = (x2, y2) ->
  begin_ (data c) = element base ->
  is_unsigned (height c) -> is_unsigned (stride c) ->
  height c * stride c < 2 ^ 32 ->
  0 <= x1 <= x2 -> x2 < stride c -> 0 <= y1 <= y2 -> y2 < height c ->
  (x1, y1) <> (x2, y2) ->
  let view := subcanvas_view getxy c p1 p2 in
  ptr_add (begin_ (data view)) (size_ (data view))
  = element (base + height c * stride c) /\
  forall k j, 0 <= k < height view -> 0 <= j < width view ->
    0 <= k * stride view + j < size_ (data view).
Proof.
  intros H1 H2 Hdata HH HS Hext Hx Hx2 Hy Hy2 Hne view. subst view.
  rewrite (view_of_rectangle getxy c base p1 p2 x1 y1 x2 y2) by done.
  cbn [data begin_ size_ width height stride ptr_add].
  destruct HH as [HH0 HH1], HS as [HS0 HS1].
  split; [f_equal; lia|].
  intros k j Hk Hj.
  pose proof (offset_nonneg (stride c) j k).
  pose proof (row_le (stride c) (y1 + k) y2).
  pose proof (offset_below_extent (stride c) (height c) x2 y2). lia.
Qed.

Lemma subcanvas_view_span_covers_witness :
  let view := subcanvas_view identity
    {| data := {| begin_ := element 0; size_ := 16 |};
       width := 4; height := 4; stride := 4 |} (1, 1) (2, 2) in
  ptr_add (begin_ (data view)) (size_ (data view)) = element 16.
Proof.
  refine (proj1 (subcanvas_view_span_covers identity
    {| data := {| begin_ := element 0; size_ := 16 |};
       width := 4; height := 4; stride := 4 |} 0 (1, 1) (2, 2) 1 1 2 2
    _ _ _ _ _ _ _ _ _ _ _));
    try reflexivity; try (unfold is_unsigned; simpl; lia); try (simpl; lia).
  discriminate.
Defined.

(** X15.  A view is not confined to the parent's width and need not have
    area: on a parent whose extent height * stride is below 2^32 and whose
    rectangle cells lie in the storage, for ordered corners below the
    parent's stride and height (equal in at most one coordinate), [fill] through the view writes exactly the
    cells base + y*stride + x of the rectangle, padding columns of the parent
    included, and no other element of the storage. *)
Theorem subcanvas_view_fill_unchecked {Point A} (getxy : Point -> Z * Z)
    (c : canvas) (p1 p2 : Point) (x1 y1 x2 y2 : Z)
    (v : A) (st : list A) (base : Z) (fuel : nat) :
  getxy p1 = (x1, y1) -> getxy p2 = (x2, y2) ->
  begin_ (data c) = element base -> 0 <= base ->
  is_unsigned (height c) -> is_unsigned (stride c) ->
  height c * stride c < 2 ^ 32 ->
  0 <= x1 <= x2 -> x2 < stride c -> 0 <= y1 <= y2 -> y2 < height c ->
  (x1, y1) <> (x2, y2) ->
  base + y2 * stride c + x2 < Z.of_nat (length st) ->
  (Z.to_nat (y2 - y1 + 1) < fuel)%nat ->
  exists st',
    fill fuel (subcanvas_view getxy c p1 p2) v st
    = Done (st', Z.to_nat (y2 - y1 + 1)) /\
    length st' = length st /\
    (forall x y, x1 <= x <= x2 -> y1 <= y <= y2 ->
       st' !! Z.to_nat (base + y * stride c + x) = Some v) /\
    (forall j : nat,
       (forall x y, x1 <= x <= x2 -> y1 <= y <= y2 ->
          Z.of_nat j <> base + y * stride c + x) ->
       st' !! j = st !! j).
Proof. apply view_fill_cells. Qed.

Lemma subcanvas_view_fill_unchecked_witness :
  exists st',
    fill 3 (subcanvas_view identity
              {| data := {| begin_ := element 0; size_ := 6 |};
                 width := 2; height := 2; stride := 3 |} (2, 0) (2, 1))
         9 [0; 1; 2; 3; 4; 5]
    = Done (st', 2%nat) /\
    st' = [0; 1; 9; 3; 4; 9].
Proof.
  destruct (subcanvas_view_fill_unchecked identity
    {| data := {| begin_ := element 0; size_ := 6 |};
       width := 2; height := 2; stride := 3 |} (2, 0) (2, 1) 2 0 2 1
    9 [0; 1; 2; 3; 4; 5] 0 3%nat)
    as (st' & Hrun & _);
    try reflexivity; try (unfold is_unsigned; simpl; lia); try (simpl; lia);
    try discriminate.
  exists st'. split; [exact Hrun|]. vm_compute in Hrun. congruence.
Defined.

(** X16.  Views nest, on a parent whose extent height * stride is below
    2^32 and for rectangles with ordered corners inside one another: the
    view of a rectangle of a view addresses the same cells as the view the parent gives for the rectangle moved by the first
    view's corner - same first element, width, height and stride - so
    [fill] through either has the same effect on any storage. *)
Theorem subcanvas_view_nested {Point A} (getxy : Point -> Z * Z)
    (c : canvas) (base : Z) (p1 p2 q1 q2 r1 r2 : Point)
    (a1 b1 a2 b2 x1 y1 x2 y2 : Z) :
  getxy p1 = (a1, b1) -> getxy p2 = (a2, b2) ->
  getxy q1 = (x1, y1) -> getxy q2 = (x2, y2) ->
  getxy r1 = (a1 + x1, b1 + y1) -> getxy r2 = (a1 + x2, b1 + y2) ->
  begin_ (data c) = element base ->
  is_unsigned (height c) -> is_unsigned (stride c) ->
  height c * stride c < 2 ^ 32 ->
  0 <= a1 <= a2 -> a2 < stride c -> 0 <= b1 <= b2 -> b2 < height c ->
  (a1, b1) <> (a2, b2) ->
  0 <= x1 <= x2 -> x2 <= a2 - a1 -> 0 <= y1 <= y2 -> y2 <= b2 - b1 ->
  (x1, y1) <> (x2, y2) ->
  let inner := subcanvas_view getxy (subcanvas_view getxy c p1 p2) q1 q2 in
  let direct := subcanvas_view getxy c r1 r2 in
  begin_ (data inner) = begin_ (data direct) /\
  width inner = width direct /\ height inner = height direct /\
  stride inner = stride direct /\
  forall (v : A) (st : list A) (fuel : nat),
    fill fuel inner v st = fill fuel direct v st.
Proof.
  intros P1 P2 Q1 Q2 R1 R2 Hdata HH HS Hext Ha Ha2 Hb Hb2 Hne Hx Hx2 Hy Hy2 Hne'
    inner direct.
  pose proof HH as [HH0 HH1]. pose proof HS as [HS0 HS1].
  assert (Hfields : begin_ (data inner) = begin_ (data direct) /\
                    width inner = width direct /\
                    height inner = height direct /\
                    stride inner = stride direct).
  { subst inner direct.
    rewrite (view_of_rectangle getxy c base p1 p2 a1 b1 a2 b2) by done.
    rewrite (view_of_rectangle getxy c base r1 r2
               (a1 + x1) (b1 + y1) (a1 + x2) (b1 + y2)); try done; try lia.
    2: { intros [= E1 E2]. apply Hne'. f_equal; lia. }
    erewrite (view_of_rectangle getxy _ _ q1 q2 x1 y1 x2 y2);
      try done; cbn [data begin_ width height stride]; try done; try lia.
    - repeat split; first [lia | f_equal; lia].
    - unfold is_unsigned. lia.
    - pose proof (row_le (stride c) (b2 - b1 + 1) (height c)). lia. }
  split; [apply Hfields|]. split; [apply Hfields|].
  split; [apply Hfields|]. split; [apply Hfields|].
  intros v st fuel. unfold fill.
  destruct Hfields as (Hd & HW & HHt & HSt). rewrite HHt.
  by apply fill_rows_same_geometry.
Qed.

Lemma subcanvas_view_nested_witness :
  let parent := {| data := {| begin_ := element 0; size_ := 25 |};
                   width := 5; height := 5; stride := 5 |} in
  let inner := subcanvas_view identity
                 (subcanvas_view identity parent (1, 1) (4, 4)) (1, 0) (2, 2) in
  let direct := subcanvas_view identity parent (2, 1) (3, 3) in
  begin_ (data inner) = begin_ (data direct) /\
  width inner = width direct /\ height inner = height direct.
Proof.
  intros parent inner direct.
  destruct (subcanvas_view_nested (A := Z) identity parent 0
              (1, 1) (4, 4) (1, 0) (2, 2) (2, 1) (3, 3) 1 1 4 4 1 0 2 2)
    as (Hb & Hw & Hh & _);
    try reflexivity; try (unfold is_unsigned; simpl; lia); try (simpl; lia);
    try discriminate.
  split; [exact Hb|]. split; [exact Hw | exact Hh].
Defined.

(** ** The saved file *)

Section SaveFacts.
Context {A : Type}.
Implicit Types (st : list A) (c : canvas) (rgb : A -> Z * Z * Z).

Lemma save_as_ppm_unfold c rgb st :
  save_as_ppm c rgb st
  = foldl (put_row c rgb st) (Some (ppm_header c)) (seqZ 0 (height c)).
Proof.
  unfold save_as_ppm, ppm_header, write. cbn [String.append].
  rewrite !append_assoc. reflexivity.
Qed.

Lemma length_append (a b : string) :
  String.length (String.append a b) = (String.length a + String.length b)%nat.
Proof. induction a as [|ch a IH]; cbn; [done | by rewrite IH]. Qed.

Lemma put_put_put os r g b :
  put (put (put os r) g) b = write os (rgb_bytes (r, g, b)).
Proof. unfold rgb_bytes, put. rewrite !write_write. reflexivity. Qed.

Lemma rgb_bytes_length (channels : Z * Z * Z) :
  String.length (rgb_bytes channels) = 3%nat.
Proof. destruct channels as [[r g] b]. reflexivity. Qed.

Lemma ppm_body_app rgb (l k : list A) :
  ppm_body rgb (l ++ k) = String.append (ppm_body rgb l) (ppm_body rgb k).
Proof.
  induction l as [|px l IH]; cbn; [done|].
  fold (ppm_body rgb (l ++ k)). fold (ppm_body rgb l).
  by rewrite IH, append_assoc.
Qed.

Lemma ppm_body_length rgb (l : list A) :
  String.length (ppm_body rgb l) = (3 * length l)%nat.
Proof.
  induction l as [|px l IH]; cbn; [done|]. fold (ppm_body rgb l).
  rewrite length_append, rgb_bytes_length, IH. lia.
Qed.

End SaveFacts.

Section SaveRun.
Context {A : Type}.
Implicit Types (st : list A) (c : canvas) (rgb : A -> Z * Z * Z).

Lemma write_empty (os : ostream) : write os EmptyString = os.
Proof. unfold write. induction os as [|ch os IH]; cbn; congruence. Qed.

Lemma load_inside st (i : Z) :
  0 <= i -> load st (element i) = st !! Z.to_nat i.
Proof. intros Hi. unfold load. by rewrite bool_decide_eq_true_2. Qed.

(** The inner loop over the first [n] columns of a row inside the storage. *)
Lemma put_row_inside c rgb st (base y : Z) (n : nat) :
  forall os,
    begin_ (data c) = element base -> 0 <= base ->
    0 <= y -> 0 <= stride c ->
    y * stride c + Z.of_nat n <= 2 ^ 32 ->
    base + y * stride c + Z.of_nat n <= Z.of_nat (length st) ->
    foldl (put_pixel c rgb st y) (Some os) (seqZ 0 (Z.of_nat n))
    = Some (write os (ppm_body rgb
              (take n (drop (Z.to_nat (base + y * stride c)) st)))).
Proof.
  intros os Hdata Hbase Hy HS.
  pose proof (Z.mul_nonneg_nonneg y (stride c) Hy HS) as Hoff.
  induction n as [|n IH]; intros Hwrap Hin.
  - cbn. by rewrite write_empty.
  - rewrite seqZ_S, foldl_app, IH by lia. cbn [foldl].
    unfold put_pixel. cbn [mbind option_bind].
    rewrite u32_add_idemp, u32_small by (unfold is_unsigned; lia).
    unfold subscript. rewrite Hdata. cbn [ptr_add].
    rewrite load_inside by lia.
    destruct (lookup_lt_is_Some_2 st
                (Z.to_nat (base + (y * stride c + (0 + Z.of_nat n)))))
      as [px Hpx]; [lia|].
    rewrite Hpx. cbn [mbind option_bind].
    rewrite (take_S_r _ _ px).
    2:{ rewrite lookup_drop. rewrite <- Hpx. f_equal. lia. }
    destruct (rgb px) as [[r g] b] eqn:Hrgb.
    rewrite put_put_put, write_write, ppm_body_app.
    cbn [ppm_body foldr]. rewrite Hrgb.
    reflexivity.
Qed.

(** The outer loop over the first [m] rows of a canvas inside the storage. *)
Lemma put_rows_inside c rgb st (base : Z) (m : nat) :
  forall os,
    geometry_ok c -> canvas_at c base -> inside c base st ->
    Z.of_nat m <= height c ->
    foldl (put_row c rgb st) (Some os) (seqZ 0 (Z.of_nat m))
    = Some (write os (ppm_body rgb
              (concat (map (canvas_row c base st) (seqZ 0 (Z.of_nat m)))))).
Proof.
  intros os (HW & HH & HS & HWS & Hext) [Hdata Hbase] Hin.
  unfold is_unsigned in HW, HH, HS.
  induction m as [|m IH]; intros Hm.
  - cbn. by rewrite write_empty.
  - rewrite seqZ_S, foldl_app, IH by lia. cbn [foldl].
    unfold put_row at 1.
    pose proof (put_row_inside c rgb st base (0 + Z.of_nat m)
                  (Z.to_nat (width c))) as Hrow.
    rewrite Z2Nat.id in Hrow by lia.
    pose proof (row_le (stride c) (Z.of_nat m) (height c - 1)).
    pose proof (offset_below_extent (stride c) (height c) 0 (Z.of_nat m)).
    rewrite Hrow; try done; try lia.
    2:{ unfold inside in Hin. lia. }
    rewrite write_write, map_app, concat_app, ppm_body_app.
    cbn [map concat]. rewrite app_nil_r. reflexivity.
Qed.

(** What [save_as_ppm] writes for a canvas inside the storage. *)
Lemma save_as_ppm_inside c rgb st (base : Z) :
  geometry_ok c -> canvas_at c base -> inside c base st ->
  save_as_ppm c rgb st
  = Some (String.append (ppm_header c)
            (ppm_body rgb (canvas_pixels c base st))).
Proof.
  intros Hgeo Hat Hin. rewrite save_as_ppm_unfold.
  pose proof Hgeo as (_ & [HH0 HH1] & _).
  pose proof (put_rows_inside c rgb st base (Z.to_nat (height c))
                (ppm_header c) Hgeo Hat Hin) as Hrows.
  rewrite Z2Nat.id in Hrows by lia. apply Hrows. lia.
Qed.

Lemma canvas_row_length c st (base y : Z) :
  0 <= base -> 0 <= y -> 0 <= stride c -> 0 <= width c ->
  base + y * stride c + width c <= Z.of_nat (length st) ->
  length (canvas_row c base st y) = Z.to_nat (width c).
Proof.
  intros Hbase Hy HS HW Hin. unfold canvas_row.
  pose proof (Z.mul_nonneg_nonneg y (stride c) Hy HS).
  rewrite length_take, length_drop. lia.
Qed.

Lemma canvas_pixels_length c st (base : Z) :
  geometry_ok c -> 0 <= base -> inside c base st ->
  length (canvas_pixels c base st) = Z.to_nat (width c * height c).
Proof.
  intros (HW & HH & HS & HWS & Hext) Hbase Hin.
  unfold is_unsigned in HW, HH, HS. unfold canvas_pixels.
  assert (Hrows : forall m : nat, Z.of_nat m <= height c ->
             length (concat (map (canvas_row c base st) (seqZ 0 (Z.of_nat m))))
             = (m * Z.to_nat (width c))%nat).
  { induction m as [|m IH]; intros Hm; [done|].
    rewrite seqZ_S, map_app, concat_app, length_app, IH by lia.
    cbn [map concat]. rewrite app_nil_r.
    pose proof (row_le (stride c) (Z.of_nat m) (height c - 1)).
    rewrite canvas_row_length; try lia.
    unfold inside in Hin. lia. }
  specialize (Hrows (Z.to_nat (height c))).
  rewrite Z2Nat.id in Hrows by lia. rewrite Hrows by lia.
  rewrite Z2Nat.inj_mul by lia. lia.
Qed.
End SaveRun.

(** X17.  For a canvas that lies in its storage, with width <= stride and
    height * stride below 2^32, [save_as_ppm] writes the
    header "P6\n<width> <height>\n255\n" followed by the three bytes of
    rgb(pixel) for each pixel in row-major order, each row being [width]
    elements from offset y * stride: width*height pixels, 3*width*height
    bytes after the header, nothing for the padding. *)
Theorem save_as_ppm_contents {A} (c : canvas) (rgb : A -> Z * Z * Z)
    (st : list A) (base : Z) :
  geometry_ok c -> canvas_at c base -> inside c base st ->
  exists out,
    save_as_ppm c rgb st = Some out /\
    out = String.append (ppm_header c) (ppm_body rgb (canvas_pixels c base st)) /\
    length (canvas_pixels c base st) = Z.to_nat (width c * height c) /\
    String.length out
    = (String.length (ppm_header c) + 3 * Z.to_nat (width c * height c))%nat.
Proof.
  intros Hgeo Hat Hin. eexists. split; [by apply save_as_ppm_inside|].
  split; [done|].
  pose proof (canvas_pixels_length c st base Hgeo (proj2 Hat) Hin) as Hlen.
  split; [done|].
  by rewrite length_append, ppm_body_length, Hlen.
Qed.

Lemma save_as_ppm_contents_witness :
  exists out,
    save_as_ppm {| data := {| begin_ := element 1; size_ := 5 |};
                   width := 1; height := 2; stride := 3 |}
                decode_rgb [0; colors.red; 0; 0; colors.blue; 0]
    = Some out /\
    ostream_bytes out
    = [80; 54; 10; 49; 32; 50; 10; 50; 53; 53; 10; 255; 0; 0; 0; 0; 255].
Proof.
  destruct (save_as_ppm_contents
    {| data := {| begin_ := element 1; size_ := 5 |};
       width := 1; height := 2; stride := 3 |}
    decode_rgb [0; colors.red; 0; 0; colors.blue; 0] 1)
    as (out & Hrun & Hout & _).
  - unfold geometry_ok, is_unsigned. simpl. lia.
  - unfold canvas_at. simpl. split; [reflexivity | lia].
  - unfold inside. simpl. lia.
  - exists out. split; [exact Hrun|]. rewrite Hout. vm_compute. reflexivity.
Defined.

Section SaveMore.
Context {A : Type}.
Implicit Types (st : list A) (c : canvas) (rgb : A -> Z * Z * Z).

(** A row read through its elements. *)
Lemma canvas_row_lookup c st (base y : Z) (i : nat) :
  0 <= base -> 0 <= y -> 0 <= stride c ->
  canvas_row c base st y !! i
  = if decide (Z.of_nat i < width c)
    then st !! Z.to_nat (base + y * stride c + Z.of_nat i)
    else None.
Proof.
  intros Hbase Hy HS. unfold canvas_row.
  pose proof (Z.mul_nonneg_nonneg y (stride c) Hy HS).
  case_decide as Hi.
  - rewrite lookup_take_lt by lia. rewrite lookup_drop. f_equal. lia.
  - apply lookup_take_ge. lia.
Qed.

Lemma canvas_pixels_ext c st st' (base : Z) :
  0 <= base -> 0 <= stride c ->
  (forall x y, 0 <= x < width c -> 0 <= y < height c ->
     st' !! Z.to_nat (base + y * stride c + x)
     = st !! Z.to_nat (base + y * stride c + x)) ->
  canvas_pixels c base st' = canvas_pixels c base st.
Proof.
  intros Hbase HS Hsame. unfold canvas_pixels. f_equal.
  apply map_ext_in. intros y Hy.
  apply list_elem_of_In, elem_of_seqZ in Hy.
  apply list_eq. intros i. rewrite !canvas_row_lookup by lia.
  case_decide; [|done]. apply Hsame; lia.
Qed.

Lemma concat_rows_replicate (v : A) (w : nat) (f : Z -> list A) (m : nat) :
  (forall y, 0 <= y < Z.of_nat m -> f y = replicate w v) ->
  concat (map f (seqZ 0 (Z.of_nat m))) = replicate (m * w) v.
Proof.
  induction m as [|m IH]; intros Hf; [done|].
  rewrite seqZ_S, map_app, concat_app, IH by (intros; apply Hf; lia).
  cbn [map concat]. rewrite app_nil_r, Hf by lia.
  rewrite <- replicate_add. f_equal. lia.
Qed.

End SaveMore.

(** X18.  For a canvas with width <= stride and height * stride below 2^32
    that lies in both storages, the saved file depends on the pixels alone:
    two storages that agree on every pixel (x, y) of the canvas give the
    same file, whatever
    they hold in the padding columns and outside the canvas. *)
Theorem save_as_ppm_ignores_padding {A} (c : canvas) (rgb : A -> Z * Z * Z)
    (st st' : list A) (base : Z) :
  geometry_ok c -> canvas_at c base ->
  inside c base st -> inside c base st' ->
  (forall x y, 0 <= x < width c -> 0 <= y < height c ->
     st' !! Z.to_nat (base + y * stride c + x)
     = st !! Z.to_nat (base + y * stride c + x)) ->
  save_as_ppm c rgb st' = save_as_ppm c rgb st.
Proof.
  intros Hgeo Hat Hin Hin' Hsame.
  rewrite !(save_as_ppm_inside c rgb _ base) by done.
  destruct Hgeo as (_ & _ & [HS _] & _), Hat as [_ Hbase].
  by rewrite (canvas_pixels_ext c st st' base).
Qed.

Lemma save_as_ppm_ignores_padding_witness :
  save_as_ppm {| data := {| begin_ := element 0; size_ := 5 |};
                 width := 1; height := 2; stride := 3 |}
              decode_rgb [colors.red; 7; 8; colors.blue; 9]
  = save_as_ppm {| data := {| begin_ := element 0; size_ := 5 |};
                   width := 1; height := 2; stride := 3 |}
                decode_rgb [colors.red; 0; 0; colors.blue].
Proof.
  apply (save_as_ppm_ignores_padding
    {| data := {| begin_ := element 0; size_ := 5 |};
       width := 1; height := 2; stride := 3 |}
    decode_rgb [colors.red; 0; 0; colors.blue]
    [colors.red; 7; 8; colors.blue; 9] 0).
  - unfold geometry_ok, is_unsigned. simpl. lia.
  - unfold canvas_at. simpl. split; [reflexivity | lia].
  - unfold inside. simpl. lia.
  - unfold inside. simpl. lia.
  - intros x y Hx Hy. simpl in Hx, Hy.
    assert (x = 0) as -> by lia.
    assert (y = 0 \/ y = 1) as [-> | ->] by lia; reflexivity.
Defined.

(** X20.  A canvas filled with v is saved as the header followed by
    width*height times the three bytes of rgb(v). *)
Theorem fill_then_save {A} (c : canvas) (rgb : A -> Z * Z * Z) (v : A)
    (st : list A) (base : Z) (fuel : nat) :
  geometry_ok c -> canvas_at c base -> inside c base st ->
  (Z.to_nat (height c) < fuel)%nat ->
  exists st',
    fill fuel c v st = Done (st', Z.to_nat (height c)) /\
    save_as_ppm c rgb st'
    = Some (String.append (ppm_header c)
              (ppm_body rgb (replicate (Z.to_nat (width c * height c)) v))).
Proof.
  intros Hgeo [Hdata Hbase] Hin Hfuel.
  pose proof Hgeo as (HW & HH & HS & HWS & Hext).
  destruct (fill_run c v base fuel st) as (st' & Hrun & Hlen & Hst'); try done.
  { apply HW. }
  { by apply rows_inside_of_inside. }
  exists st'. split; [exact Hrun|].
  assert (Hin' : inside c base st') by (unfold inside; by rewrite Hlen).
  rewrite (save_as_ppm_inside c rgb st' base) by done.
  unfold is_unsigned in HW, HH, HS.
  do 3 f_equal. unfold canvas_pixels.
  pose proof (concat_rows_replicate v (Z.to_nat (width c))
                (canvas_row c base st') (Z.to_nat (height c))) as Hrows.
  rewrite Z2Nat.id in Hrows by lia. rewrite Hrows.
  { f_equal. rewrite Z2Nat.inj_mul by lia. lia. }
  intros y Hy. apply list_eq. intros i.
  rewrite canvas_row_lookup by lia.
  case_decide as Hi.
  - rewrite lookup_replicate_2 by lia.
    apply (proj1 (Hst' _) y Hy). unfold in_row.
    rewrite row_start_exact by done.
    pose proof (offset_nonneg (stride c) (Z.of_nat i) y).
    rewrite Z2Nat.id by lia. lia.
  - symmetry. apply lookup_replicate_None. lia.
Qed.

Lemma fill_then_save_witness :
  exists st',
    fill 3 {| data := {| begin_ := element 0; size_ := 4 |};
              width := 2; height := 2; stride := 2 |} colors.green [0; 0; 0; 0]
    = Done (st', 2%nat) /\
    ostream_bytes <$> save_as_ppm
      {| data := {| begin_ := element 0; size_ := 4 |};
         width := 2; height := 2; stride := 2 |} decode_rgb st'
    = Some [80; 54; 10; 50; 32; 50; 10; 50; 53; 53; 10;
            0; 255; 0; 0; 255; 0; 0; 255; 0; 0; 255; 0].
Proof.
  destruct (fill_then_save
    {| data := {| begin_ := element 0; size_ := 4 |};
       width := 2; height := 2; stride := 2 |} decode_rgb colors.green
    [0; 0; 0; 0] 0 3%nat) as (st' & Hrun & Hsave).
  - unfold geometry_ok, is_unsigned. simpl. lia.
  - unfold canvas_at. simpl. split; [reflexivity | lia].
  - unfold inside. simpl. lia.
  - simpl. lia.
  - exists st'. split; [exact Hrun|]. rewrite Hsave. vm_compute. reflexivity.
Defined.

(** ** The demonstration program *)

Section DemoFacts.
Variables Size Cell : Z.
Hypothesis Cell_pos : 0 < Cell.

Lemma div_of_band (k x : Z) :
  (k * Cell <= x -> k <= x / Cell) /\ (x < k * Cell -> x / Cell < k).
Proof.
  split; intros Hx.
  - apply Z.div_le_lower_bound; lia.
  - apply Z.div_lt_upper_bound; lia.
Qed.

Ltac bools :=
  repeat match goal with
  | |- context [?a <=? ?b] => destruct (Z.leb_spec a b)
  | |- context [?a <? ?b] => destruct (Z.ltb_spec a b)
  end; cbn [andb].

(** One more cell of a row. *)
Lemma over_cell_next (k j : Z) (f : Z -> Z -> Z) (x y : Z) :
  0 <= k -> 0 <= x ->
  over_cell Cell k j (over_cells Cell k j f) x y
  = over_cells Cell (k + 1) j f x y.
Proof.
  intros Hk Hx. unfold over_cell, over_cells, in_band.
  pose proof (div_of_band k x) as [Hge Hlt].
  bools; try reflexivity; try lia; f_equal; lia.
Qed.

(** One more row of cells. *)
Lemma over_cells_next (m : Z) (x y : Z) :
  0 <= m -> 0 <= y ->
  over_cells Cell (Size / Cell - 1) m (over_rows Size Cell m) x y
  = over_rows Size Cell (m + 1) x y.
Proof.
  intros Hm Hy. unfold over_cells, over_rows, in_band.
  pose proof (div_of_band m y) as [Hge Hlt].
  cbv zeta.
  bools; try reflexivity; try lia; f_equal; lia.
Qed.

Hypothesis Cell_le_Size : Cell <= Size.
Hypothesis Size_fits : Size * Size < 2 ^ 32.

Lemma grid_bounds :
  let n := Size / Cell - 1 in
  0 <= n /\ (n + 1) * Cell <= Size /\ Size < 2 ^ 32 /\ u32 n = n.
Proof.
  intros n. subst n.
  assert (1 <= Size / Cell) by (apply Z.div_le_lower_bound; lia).
  pose proof (Z.mul_div_le Size Cell Cell_pos).
  assert (Size < 2 ^ 32) by nia.
  split; [lia|]. split; [lia|]. split; [lia|].
  apply u32_small. unfold is_unsigned. nia.
Qed.

Lemma pixel_offsets_differ (x y x' y' : Z) :
  0 <= x < Size -> 0 <= x' < Size ->
  y * Size + x = y' * Size + x' -> x = x' /\ y = y'.
Proof.
  intros Hx Hx' Heq.
  assert (y = y') by nia. subst. lia.
Qed.

Lemma shows_ext (st : list Z) (f g : Z -> Z -> Z) :
  (forall x y, 0 <= x < Size -> 0 <= y < Size -> f x y = g x y) ->
  shows Size st f -> shows Size st g.
Proof.
  intros Hfg [Hlen Hf]. split; [done|].
  intros x y Hx Hy. rewrite Hf, Hfg by done. done.
Qed.

Lemma cell_reach (i : Z) :
  0 <= i < Size / Cell - 1 ->
  0 <= i * Cell /\ i * Cell < (i + 1) * Cell /\ (i + 1) * Cell < Size.
Proof.
  intros Hi. pose proof grid_bounds as (Hn0 & Hn1 & HS & _). cbv zeta in *.
  pose proof (Z.mul_nonneg_nonneg i Cell).
  pose proof (row_le Cell (i + 2) (Size / Cell - 1 + 1)). lia.
Qed.

(** The corners of cell (i, j). *)
Lemma cell_corners (i j : Z) :
  0 <= i < Size / Cell - 1 -> 0 <= j < Size / Cell - 1 ->
  math.reduce math.unsigned_call math.multiplies
    (math.vector_of [i; j]) (math.scalar_of Cell)
  = Some [i * Cell; j * Cell] /\
  (q ← math.reduce math.unsigned_call math.plus
         (math.vector_of [i; j]) (math.scalar_of 1);
   math.reduce math.unsigned_call math.multiplies
     (math.vector_of q) (math.scalar_of Cell))
  = Some [(i + 1) * Cell; (j + 1) * Cell].
Proof.
  intros Hi Hj. pose proof grid_bounds as (Hn0 & Hn1 & HS & _). cbv zeta in *.
  rewrite !reduce_map_l by (cbn [length]; lia). cbn [mbind option_bind map].
  rewrite !reduce_map_l by (cbn [length]; lia). cbn [map math.unsigned_call].
  pose proof (cell_reach i Hi) as (Hi0 & Hi1 & Hi2).
  pose proof (cell_reach j Hj) as (Hj0 & Hj1 & Hj2).
  rewrite (u32_small (i + 1)), (u32_small (j + 1)) by (unfold is_unsigned; lia).
  rewrite !u32_small by (unfold is_unsigned; lia).
  done.
Qed.

(** Drawing one cell. *)
Lemma draw_cell_shows (fuel : nat) (i j : Z) (st : list Z) (f : Z -> Z -> Z) :
  (Z.to_nat Size < fuel)%nat ->
  0 <= i < Size / Cell - 1 -> 0 <= j < Size / Cell - 1 ->
  shows Size st f ->
  exists st',
    draw_cell Size Cell fuel j (Done st) i = Done st' /\
    shows Size st' (over_cell Cell i j f).
Proof.
  intros Hfuel Hi Hj [Hlen Hf].
  pose proof grid_bounds as (Hn0 & Hn1 & HS & _). cbv zeta in *.
  destruct (cell_corners i j Hi Hj) as [Hp1 Hp2].
  unfold draw_cell. cbn [and_then]. rewrite Hp1, Hp2.
  pose proof (cell_reach i Hi) as (Hi0 & Hi1 & Hi2).
  pose proof (cell_reach j Hj) as (Hj0 & Hj1 & Hj2).
  destruct (view_fill_cells array_xy (demo_canvas Size)
              [i * Cell; j * Cell] [(i + 1) * Cell; (j + 1) * Cell]
              (i * Cell) (j * Cell) ((i + 1) * Cell) ((j + 1) * Cell)
              (cell_colour i j) st 0 fuel)
    as (st' & Hrun & Hlen' & Hin & Hout);
    try reflexivity; cbn [demo_canvas height stride width];
    try (unfold is_unsigned; lia); try lia.
  { intros [= E1 E2]. lia. }
  { rewrite Hlen. pose proof (offset_below_extent Size Size
      ((i + 1) * Cell) ((j + 1) * Cell)). lia. }
  cbn [demo_canvas height stride width] in *.
  rewrite Hrun. cbn [and_then]. exists st'. split; [done|].
  split; [congruence|].
  intros x y Hx Hy. unfold over_cell, in_band.
  destruct (Z.leb_spec (i * Cell) x), (Z.leb_spec x ((i + 1) * Cell)),
           (Z.leb_spec (j * Cell) y), (Z.leb_spec y ((j + 1) * Cell));
    cbn [andb];
    first [ apply (Hin x y); lia
          | rewrite Hout; [by apply Hf|];
            intros x' y' Hx' Hy';
            pose proof (offset_nonneg Size x y);
            rewrite Z2Nat.id by lia;
            intros Heq; apply pixel_offsets_differ in Heq; lia ].
Qed.

(** The cells of row [j], one after the other. *)
Lemma draw_cells_shows (fuel : nat) (j : Z) (f : Z -> Z -> Z) (k : nat) :
  forall st,
    (Z.to_nat Size < fuel)%nat ->
    Z.of_nat k <= Size / Cell - 1 -> 0 <= j < Size / Cell - 1 ->
    shows Size st f ->
    exists st',
      foldl (draw_cell Size Cell fuel j) (Done st) (seqZ 0 (Z.of_nat k)) = Done st' /\
      shows Size st' (over_cells Cell (Z.of_nat k) j f).
Proof.
  induction k as [|k IH]; intros st Hfuel Hk Hj Hst.
  - exists st. split; [done|]. revert Hst. apply shows_ext. done.
  - destruct (IH st) as (st1 & Hrun1 & Hst1); [done | lia | done | done |].
    rewrite seqZ_S, foldl_app, Hrun1. cbn [foldl]. rewrite Z.add_0_l.
    destruct (draw_cell_shows fuel (Z.of_nat k) j st1
                (over_cells Cell (Z.of_nat k) j f) Hfuel)
      as (st' & Hrun & Hst'); [lia | done | exact Hst1 |].
    exists st'. split; [done|]. revert Hst'. apply shows_ext.
    intros x y Hx Hy. rewrite Nat2Z.inj_succ, <- Z.add_1_r.
    apply over_cell_next; lia.
Qed.

(** The rows of cells, one after the other. *)
Lemma draw_rows_shows (fuel : nat) (m : nat) :
  forall st,
    (Z.to_nat Size < fuel)%nat ->
    Z.of_nat m <= Size / Cell - 1 ->
    shows Size st (over_rows Size Cell 0) ->
    exists st',
      foldl (draw_row Size Cell fuel) (Done st) (seqZ 0 (Z.of_nat m)) = Done st' /\
      shows Size st' (over_rows Size Cell (Z.of_nat m)).
Proof.
  pose proof grid_bounds as (Hn0 & Hn1 & HS & Hu). cbv zeta in *.
  induction m as [|m IH]; intros st Hfuel Hm Hst.
  - exists st. done.
  - destruct (IH st) as (st1 & Hrun1 & Hst1); [done | lia | done |].
    rewrite seqZ_S, foldl_app, Hrun1. cbn [foldl]. rewrite Z.add_0_l.
    unfold draw_row. rewrite Hu.
    destruct (draw_cells_shows fuel (Z.of_nat m)
                (over_rows Size Cell (Z.of_nat m))
                (Z.to_nat (Size / Cell - 1)) st1 Hfuel)
      as (st' & Hrun & Hst'); [lia | lia | exact Hst1 |].
    rewrite Z2Nat.id in Hrun, Hst' by lia.
    exists st'. split; [done|]. revert Hst'. apply shows_ext.
    intros x y Hx Hy. rewrite Nat2Z.inj_succ, <- Z.add_1_r.
    apply over_cells_next; lia.
Qed.

Lemma demo_canvas_ok :
  geometry_ok (demo_canvas Size) /\ canvas_at (demo_canvas Size) 0 /\
  length (demo_storage Size) = Z.to_nat (Size * Size) /\
  inside (demo_canvas Size) 0 (demo_storage Size).
Proof.
  pose proof grid_bounds as (Hn0 & Hn1 & HS & _). cbv zeta in *.
  assert (0 < Size) by lia.
  assert (Hlen : length (demo_storage Size) = Z.to_nat (Size * Size)).
  { unfold demo_storage. rewrite length_replicate, u32_small; [done|].
    unfold is_unsigned. nia. }
  split; [|split; [|split]].
  - unfold geometry_ok, is_unsigned. cbn. lia.
  - split; [reflexivity | lia].
  - exact Hlen.
  - unfold inside. rewrite Hlen. cbn. nia.
Qed.

(** The background fill. *)
Lemma draw_background (fuel : nat) :
  (Z.to_nat Size < fuel)%nat ->
  exists st,
    fill fuel (demo_canvas Size) colors.gruvbox.bg (demo_storage Size)
    = Done (st, Z.to_nat Size) /\
    shows Size st (over_rows Size Cell 0).
Proof.
  intros Hfuel.
  destruct demo_canvas_ok as (Hgeo & [Hdata Hbase] & Hlen & Hin).
  pose proof Hgeo as (HW & HH & HSt & _).
  destruct (fill_run (demo_canvas Size) colors.gruvbox.bg 0 fuel
              (demo_storage Size)) as (st & Hrun & Hlen' & Hst); try done.
  { apply HW. }
  { by apply rows_inside_of_inside. }
  exists st. split; [exact Hrun|]. split; [congruence|].
  intros x y Hx Hy. unfold over_rows. cbn [Z.ltb andb].
  apply (proj1 (Hst _) y Hy). unfold in_row.
  rewrite row_start_exact by (try done; apply Hgeo).
  cbn [demo_canvas stride width].
  pose proof (offset_nonneg Size x y).
  rewrite Z2Nat.id by lia. lia.
Qed.

Lemma over_rows_pattern (x y : Z) :
  over_rows Size Cell (Size / Cell - 1) x y = pattern Size Cell x y.
Proof.
  unfold over_rows, pattern. cbv zeta.
  destruct (0 <? Size / Cell - 1); reflexivity.
Qed.

(** The whole drawing. *)
Lemma draw_shows (fuel : nat) :
  (Z.to_nat Size < fuel)%nat ->
  exists st, draw Size Cell fuel = Done st /\ shows Size st (pattern Size Cell).
Proof.
  intros Hfuel.
  pose proof grid_bounds as (Hn0 & Hn1 & HS & Hu). cbv zeta in *.
  destruct (draw_background fuel Hfuel) as (st0 & Hrun0 & Hst0).
  unfold draw. rewrite Hrun0, Hu. cbn [and_then].
  destruct (draw_rows_shows fuel (Z.to_nat (Size / Cell - 1)) st0 Hfuel)
    as (st & Hrun & Hst); [lia | done |].
  rewrite Z2Nat.id in Hrun, Hst by lia.
  exists st. split; [done|]. revert Hst. apply shows_ext.
  intros x y _ _. apply over_rows_pattern.
Qed.

(** A canvas without padding over exactly its storage: the pixels in
    row-major order are the storage. *)
Lemma canvas_pixels_dense (c : canvas) (st : list Z) :
  width c = stride c -> 0 <= width c -> 0 <= height c ->
  length st = Z.to_nat (width c * height c) ->
  canvas_pixels c 0 st = st.
Proof.
  intros HWS HW HH Hlen. unfold canvas_pixels.
  assert (Hrows : forall m : nat,
             concat (map (canvas_row c 0 st) (seqZ 0 (Z.of_nat m)))
             = take (m * Z.to_nat (width c)) st).
  { induction m as [|m IH]; [done|].
    rewrite seqZ_S, map_app, concat_app, IH. cbn [map concat].
    rewrite app_nil_r. unfold canvas_row. rewrite <- HWS.
    replace (Z.to_nat (0 + (0 + Z.of_nat m) * width c))
      with (m * Z.to_nat (width c))%nat by nia.
    rewrite take_take_drop. f_equal. lia. }
  specialize (Hrows (Z.to_nat (height c))).
  rewrite Z2Nat.id in Hrows by lia. rewrite Hrows.
  apply take_ge. rewrite Hlen. nia.
Qed.

(** The whole program. *)
Lemma run_shows (fuel : nat) :
  (Z.to_nat Size < fuel)%nat ->
  exists st,
    draw Size Cell fuel = Done st /\
    shows Size st (pattern Size Cell) /\
    run Size Cell fuel
    = Done (String.append (ppm_header (demo_canvas Size))
              (ppm_body decode_rgb st)).
Proof.
  intros Hfuel.
  destruct (draw_shows fuel Hfuel) as (st & Hrun & Hst).
  exists st. split; [done|]. split; [done|].
  destruct demo_canvas_ok as (Hgeo & Hat & Hlen & Hin).
  pose proof Hgeo as ([HW0 HW1] & _).
  unfold run. rewrite Hrun. cbn [and_then].
  rewrite (save_as_ppm_inside (demo_canvas Size) decode_rgb st 0); try done.
  - rewrite canvas_pixels_dense; [done|done|done|done|]. apply Hst.
  - unfold inside. rewrite (proj1 Hst), <- Hlen. exact Hin.
Qed.
End DemoFacts.

(** X21.  For any cell size 0 < Cell <= Size with Size * Size representable,
    the drawing part of the program runs to the end without a fault, and
    the canvas then shows the pattern: pixel (x, y) with x, y at most
    n * Cell, n = Size / Cell - 1 the number of cells per side, has the
    colour of cell (min (n-1) (x / Cell), min (n-1) (y / Cell)) - background
    when the sum of the two indices is even, foreground when it is odd - the
    border lines shared by two cells going to the one drawn later; every
    other pixel has the background colour. *)
Theorem draw_pattern (size cell : Z) (fuel : nat) :
  0 < cell -> cell <= size -> size * size < 2 ^ 32 ->
  (Z.to_nat size < fuel)%nat ->
  exists st,
    draw size cell fuel = Done st /\
    length st = Z.to_nat (size * size) /\
    forall x y, 0 <= x < size -> 0 <= y < size ->
      st !! Z.to_nat (y * size + x) = Some (pattern size cell x y).
Proof.
  intros Hc Hcs Hfit Hfuel.
  destruct (draw_shows size cell Hc Hcs Hfit fuel Hfuel) as (st & Hrun & Hlen & Hst).
  by exists st.
Qed.

Lemma draw_pattern_witness :
  draw 6 2 7
  = Done (let a := colors.gruvbox.bg in let b := colors.gruvbox.fg in
          [a; a; b; b; b; a;
           a; a; b; b; b; a;
           b; b; a; a; a; a;
           b; b; a; a; a; a;
           b; b; a; a; a; a;
           a; a; a; a; a; a]).
Proof.
  destruct (draw_pattern 6 2 7) as (st & Hrun & _); try lia.
  rewrite Hrun. vm_compute in Hrun. injection Hrun as <-. reflexivity.
Defined.

(** X22.  [main] runs to the end without a fault for any fuel above 600.
    The file it writes is the header "P6\n600 600\n255\n" followed by the
    three decoded bytes of each of the 600 * 600 pixels in row-major order,
    1080015 bytes in all, and the pixels are those of the pattern with
    Size = 600 and Cell = 40: fourteen cells per side up to coordinate 560,
    background beyond. *)
Theorem main_result (fuel : nat) :
  (600 < fuel)%nat ->
  exists st out,
    draw Size Cell fuel = Done st /\
    main fuel = Done out /\
    out = String.append ("P6" ++ nl ++ "600 600" ++ nl ++ "255" ++ nl)%string
            (ppm_body decode_rgb st) /\
    Z.of_nat (String.length out) = 1080015 /\
    Z.of_nat (length st) = 360000 /\
    forall x y, 0 <= x < 600 -> 0 <= y < 600 ->
      st !! Z.to_nat (y * 600 + x) = Some (pattern Size Cell x y).
Proof.
  intros Hfuel.
  destruct (run_shows Size Cell) with (fuel := fuel)
    as (st & Hdraw & [Hlen Hst] & Hrun);
    try (unfold Size, Cell; lia).
  exists st. eexists. split; [exact Hdraw|]. split; [exact Hrun|].
  assert (Hlen' : Z.of_nat (length st) = 360000).
  { rewrite Hlen. unfold Size. lia. }
  split; [reflexivity|]. split; [|split; [exact Hlen'|exact Hst]].
  rewrite length_append, ppm_body_length, Nat2Z.inj_add, Nat2Z.inj_mul, Hlen'.
  reflexivity.
Qed.

Lemma main_result_witness :
  exists out, main 601 = Done out /\ Z.of_nat (String.length out) = 1080015.
Proof.
  destruct (main_result 601) as (st & out & _ & Hrun & _ & Hlen & _); [lia|].
  exists out. split; [exact Hrun | exact Hlen].
Defined.

(** ** Fills through several views *)

(** Whether a storage index is a cell of a rectangle can be decided. *)
Lemma in_rectangle_dec (S base x1 y1 x2 y2 : Z) (j : nat) :
  0 <= x1 -> x2 < S ->
  (exists x y, x1 <= x <= x2 /\ y1 <= y <= y2 /\
               Z.of_nat j = base + y * S + x) \/
  (forall x y, x1 <= x <= x2 -> y1 <= y <= y2 ->
               Z.of_nat j <> base + y * S + x).
Proof.
  intros Hx1 Hx2.
  destruct (decide (x1 <= x2)) as [Hx|Hx]; [|right; intros; lia].
  set (off := Z.of_nat j - base).
  destruct (decide (x1 <= off mod S <= x2 /\ y1 <= off / S <= y2)) as [Hin|Hout].
  - left. exists (off mod S), (off / S). split; [lia|]. split; [lia|].
    pose proof (Z.div_mod off S ltac:(lia)). lia.
  - right. intros x y Hxr Hyr Heq. apply Hout.
    assert (Hoff : off = S * y + x) by (subst off; lia).
    rewrite <- (Z.mod_unique_pos off S y x), <- (Z.div_unique_pos off S y x);
      [lia | lia | exact Hoff | lia | exact Hoff].
Qed.

Lemma offsets_unique (S x y x' y' : Z) :
  0 <= x < S -> 0 <= x' < S ->
  y * S + x = y' * S + x' -> x = x' /\ y = y'.
Proof.
  intros Hx Hx' Heq.
  assert (y = y') by nia. subst. lia.
Qed.

(** X23.  On a canvas whose extent height * stride is below 2^32 and lies
    in the storage, fills through the views of two rectangles (ordered
    corners below stride and height) that share no pixel can be done in
    either order: the storage at the end is the same. *)
Theorem disjoint_fills_commute {Point A} (getxy : Point -> Z * Z)
    (c : canvas) (p1 p2 q1 q2 : Point) (x1 y1 x2 y2 a1 b1 a2 b2 : Z)
    (v w : A) (st : list A) (base : Z) (fuel : nat) :
  getxy p1 = (x1, y1) -> getxy p2 = (x2, y2) ->
  getxy q1 = (a1, b1) -> getxy q2 = (a2, b2) ->
  begin_ (data c) = element base -> 0 <= base ->
  is_unsigned (height c) -> is_unsigned (stride c) ->
  height c * stride c < 2 ^ 32 ->
  0 <= x1 <= x2 -> x2 < stride c -> 0 <= y1 <= y2 -> y2 < height c ->
  (x1, y1) <> (x2, y2) ->
  0 <= a1 <= a2 -> a2 < stride c -> 0 <= b1 <= b2 -> b2 < height c ->
  (a1, b1) <> (a2, b2) ->
  x2 < a1 \/ a2 < x1 \/ y2 < b1 \/ b2 < y1 ->
  base + height c * stride c <= Z.of_nat (length st) ->
  (Z.to_nat (height c) < fuel)%nat ->
  exists s1 s2 s n m,
    fill fuel (subcanvas_view getxy c p1 p2) v st = Done (s1, n) /\
    fill fuel (subcanvas_view getxy c q1 q2) w s1 = Done (s, m) /\
    fill fuel (subcanvas_view getxy c q1 q2) w st = Done (s2, m) /\
    fill fuel (subcanvas_view getxy c p1 p2) v s2 = Done (s, n).
Proof.
  intros P1 P2 Q1 Q2 Hdata Hbase HH HS Hext Hx Hx2 Hy Hy2 Hne
    Ha Ha2 Hb Hb2 Hne' Hdis Hin Hfuel.
  pose proof HH as [HH0 HH1]. pose proof HS as [HS0 HS1].
  assert (Hfit1 : forall s' : list A, length s' = length st ->
             base + y2 * stride c + x2 < Z.of_nat (length s')).
  { intros s' ->.
    pose proof (offset_below_extent (stride c) (height c) x2 y2). lia. }
  assert (Hfit2 : forall s' : list A, length s' = length st ->
             base + b2 * stride c + a2 < Z.of_nat (length s')).
  { intros s' ->.
    pose proof (offset_below_extent (stride c) (height c) a2 b2). lia. }
  assert (Hfuel1 : (Z.to_nat (y2 - y1 + 1) < fuel)%nat) by lia.
  assert (Hfuel2 : (Z.to_nat (b2 - b1 + 1) < fuel)%nat) by lia.
  destruct (view_fill_cells getxy c p1 p2 x1 y1 x2 y2 v st base fuel
              P1 P2 Hdata Hbase HH HS Hext Hx Hx2 Hy Hy2 Hne
              (Hfit1 st eq_refl) Hfuel1)
    as (s1 & Hr1 & Hl1 & Hin1 & Hout1).
  destruct (view_fill_cells getxy c q1 q2 a1 b1 a2 b2 w s1 base fuel
              Q1 Q2 Hdata Hbase HH HS Hext Ha Ha2 Hb Hb2 Hne'
              (Hfit2 s1 Hl1) Hfuel2)
    as (s & Hr & Hl & Hin_s & Hout_s).
  destruct (view_fill_cells getxy c q1 q2 a1 b1 a2 b2 w st base fuel
              Q1 Q2 Hdata Hbase HH HS Hext Ha Ha2 Hb Hb2 Hne'
              (Hfit2 st eq_refl) Hfuel2)
    as (s2 & Hr2 & Hl2 & Hin2 & Hout2).
  destruct (view_fill_cells getxy c p1 p2 x1 y1 x2 y2 v s2 base fuel
              P1 P2 Hdata Hbase HH HS Hext Hx Hx2 Hy Hy2 Hne
              (Hfit1 s2 Hl2) Hfuel1)
    as (s' & Hr' & Hl' & Hin' & Hout').
  exists s1, s2, s, (Z.to_nat (y2 - y1 + 1)), (Z.to_nat (b2 - b1 + 1)).
  split; [done|]. split; [done|]. split; [done|].
  rewrite Hr'. do 2 f_equal. apply list_eq. intros j.
  assert (Hapart : forall x y a b,
             x1 <= x <= x2 -> y1 <= y <= y2 -> a1 <= a <= a2 -> b1 <= b <= b2 ->
             base + y * stride c + x <> base + b * stride c + a).
  { intros x y a b Hxr Hyr Har Hbr Heq.
    destruct (offsets_unique (stride c) x y a b) as [-> ->]; lia. }
  destruct (in_rectangle_dec (stride c) base x1 y1 x2 y2 j)
    as [(x & y & Hxr & Hyr & Hj)|Hno]; [lia | lia | |].
  - (* a cell of the first rectangle *)
    pose proof (offset_nonneg (stride c) x y).
    replace j with (Z.to_nat (base + y * stride c + x)) by lia.
    rewrite (Hin' x y Hxr Hyr). rewrite Hout_s.
    + by rewrite (Hin1 x y Hxr Hyr).
    + intros a b Har Hbr. rewrite Z2Nat.id by lia. by apply Hapart.
  - rewrite (Hout' j Hno).
    destruct (in_rectangle_dec (stride c) base a1 b1 a2 b2 j)
      as [(a & b & Har & Hbr & Hj)|Hno']; [lia | lia | |].
    + pose proof (offset_nonneg (stride c) a b).
      replace j with (Z.to_nat (base + b * stride c + a)) by lia.
      by rewrite (Hin2 a b Har Hbr), (Hin_s a b Har Hbr).
    + by rewrite (Hout2 j Hno'), (Hout_s j Hno'), (Hout1 j Hno).
Qed.

Lemma disjoint_fills_commute_witness :
  let parent := {| data := {| begin_ := element 0; size_ := 16 |};
                   width := 4; height := 4; stride := 4 |} in
  exists s1 s2 s n m,
    fill 5 (subcanvas_view identity parent (0, 0) (1, 1)) 7 (replicate 16 0)
    = Done (s1, n) /\
    fill 5 (subcanvas_view identity parent (2, 2) (3, 3)) 9 s1 = Done (s, m) /\
    fill 5 (subcanvas_view identity parent (2, 2) (3, 3)) 9 (replicate 16 0)
    = Done (s2, m) /\
    fill 5 (subcanvas_view identity parent (0, 0) (1, 1)) 7 s2 = Done (s, n).
Proof.
  intros parent.
  apply (disjoint_fills_commute identity parent (0, 0) (1, 1) (2, 2) (3, 3)
           0 0 1 1 2 2 3 3 7 9 (replicate 16 0) 0 5);
    try reflexivity; try (unfold is_unsigned; simpl; lia); try (simpl; lia);
    try discriminate.
Defined.

(** X24.  [fill] finds row y at the wrapped cursor (y * stride) mod 2^32.
    Whenever the rows so addressed lie in the storage it completes; the
    cells of these rows hold the value and all others are as before.  (For
    height * stride below 2^32 the cursor is y * stride; beyond it, rows
    wrap onto earlier ones.) *)
Theorem fill_rows_wrapped {A} (c : canvas) (v : A) (st : list A)
    (base : Z) (fuel : nat) :
  is_unsigned (height c) -> 0 <= width c ->
  begin_ (data c) = element base -> 0 <= base ->
  (Z.to_nat (height c) < fuel)%nat ->
  (forall y, 0 <= y < height c ->
     base + (y * stride c) mod 2 ^ 32 + width c <= Z.of_nat (length st)) ->
  exists st',
    fill fuel c v st = Done (st', Z.to_nat (height c)) /\
    length st' = length st /\
    forall j : nat,
      (forall y, 0 <= y < height c ->
         base + (y * stride c) mod 2 ^ 32 <= Z.of_nat j
         < base + (y * stride c) mod 2 ^ 32 + width c ->
         st' !! j = Some v) /\
      ((forall y, 0 <= y < height c ->
          ~ (base + (y * stride c) mod 2 ^ 32 <= Z.of_nat j
             < base + (y * stride c) mod 2 ^ 32 + width c)) ->
       st' !! j = st !! j).
Proof. apply fill_run. Qed.

Lemma fill_rows_wrapped_witness :
  exists st',
    fill 3 {| data := {| begin_ := element 0; size_ := 4 |};
              width := 1; height := 2; stride := 2 |} 7 [0; 1; 2; 3]
    = Done (st', 2%nat) /\
    st' = [7; 1; 7; 3].
Proof.
  destruct (fill_rows_wrapped
    {| data := {| begin_ := element 0; size_ := 4 |};
       width := 1; height := 2; stride := 2 |} 7 [0; 1; 2; 3] 0 3%nat)
    as (st' & Hrun & _).
  - unfold is_unsigned. simpl. lia.
  - simpl. lia.
  - reflexivity.
  - lia.
  - simpl. lia.
  - intros y Hy. simpl in Hy. assert (y = 0 \/ y = 1) as [-> | ->] by lia;
      vm_compute; discriminate.
  - exists st'. split; [exact Hrun|]. vm_compute in Hrun. congruence.
Defined.
